(** * Hainault: a brainfuck interpreter (brain_fuck.cpp)

    A shallow embedding of [count_operators], [get_input], the
    interpretation loop of [main] and its reading of the command line,
    followed by the properties of the execution engine and of the command
    line.

    Conventions of the embedding.
    - [int] variables ([pointer], [index], the counters, the two extrema, the
      entries of [loop_start_indices]) are values of [Z]. Signed overflow is
      undefined in C++, so the embedding follows the source on every run
      whose [int] values stay in range. Where a property states the value
      of a counter along a run, the run is bounded by [INT_MAX] iterations,
      within which no [int] leaves its range.
    - A tape cell is a [char], taken as a signed byte: a value of [Z] in
      [-128, 127]; storing into a cell wraps with [wrap_char].
    - [map<int, char> stack] is a [gmap Z Z]; [stack[pointer]] inserts a zero
      cell when the key is absent, which [touch] writes out.
    - [vector<int> loop_start_indices] is a [list Z] whose back is the last
      element.
    - [cin], [cout] and [cerr] are strings: what is left to read, and what
      the loop and [get_input] have written. The newlines [main] writes
      before and after the loop and the verbose report, which prints
      floating-point timings, are not part of the embedding; the command
      line is embedded on its own, as [parse_arguments].
    - [fuel] bounds the iterations of the [for] loop, which need not end;
      [OutOfFuel] is the outcome of the embedding alone.
    - Behaviour the C++ standard leaves undefined (reading the instruction
      string beyond its terminator, [pop_back] on an empty vector) is an
      explicit outcome, [Undefined]. *)

From Stdlib Require Import ZArith Lia String Ascii List Bool.
From stdpp Require Import base option gmap.
Import ListNotations.

Local Open Scope Z_scope.

(** ** Characters and strings *)

(** [operators.find(instruction) != string::npos] *)
Fixpoint find (s : string) (c : ascii) : bool :=
  match s with
  | EmptyString => false
  | String c' s' => if Ascii.eqb c' c then true else find s' c
  end.

(** [instructions.size()] *)
Definition size (s : string) : Z := Z.of_nat (String.length s).

(** [instructions[index]]: a character of the string for [0 <= index < size],
    the terminating null character at [index = size], and undefined behaviour
    (here [None]) anywhere else. *)
Definition string_at (s : string) (index : Z) : option ascii :=
  if (0 <=? index) && (index <? size s) then String.get (Z.to_nat index) s
  else if index =? size s then Some Ascii.zero
  else None.

Definition newline : ascii := ascii_of_nat 10.

(** ** Program representation: [count_operators] *)

Definition operators : string := "+-./<>[]".

Fixpoint count_loop (instructions : string) (operator_count : Z) : Z :=
  match instructions with
  | EmptyString => operator_count
  | String instruction rest =>
      count_loop rest
        (if find operators instruction then operator_count + 1
         else operator_count)
  end.

Definition count_operators (instructions : string) : Z :=
  count_loop instructions 0.

(** ** The tape *)

(** Conversion of an [int] to [char]: wrap-around on a signed byte. *)
Definition wrap_char (z : Z) : Z := (z + 128) mod 256 - 128.

(** The [char] a byte of the input stream is read as. *)
Definition char_of_ascii (a : ascii) : Z :=
  wrap_char (Z.of_nat (nat_of_ascii a)).

(** The byte written for a [char] in the printable range. *)
Definition ascii_of_char (v : Z) : ascii := ascii_of_nat (Z.to_nat v).

(** The value [stack[pointer]] evaluates to. *)
Definition cell (stack : gmap Z Z) (pointer : Z) : Z :=
  default 0 (stack !! pointer).

(** The map after [stack[pointer]] was evaluated: [operator[]] of [std::map]
    inserts a value-initialised cell under a key that is absent. *)
Definition touch (stack : gmap Z Z) (pointer : Z) : gmap Z Z :=
  match stack !! pointer with
  | Some _ => stack
  | None => <[pointer := 0]> stack
  end.

(** ** The loop-start buffer: [vector<int>] *)

Definition vec_empty (v : list Z) : bool :=
  match v with [] => true | _ :: _ => false end.

(** [v.back()], called in the source on non-empty vectors only. *)
Definition vec_back (v : list Z) : Z := List.last v 0.

Definition vec_push_back (v : list Z) (x : Z) : list Z := v ++ [x].

(** [v.pop_back()]; undefined on an empty vector, here [None]. *)
Definition vec_pop_back (v : list Z) : option (list Z) :=
  match v with [] => None | _ :: _ => Some (removelast v) end.

(** ** Outcomes *)

(** Every failure of the source is [throw -1]; the kinds name the throw
    sites: [InputError] in [get_input], [ResourceLimitExceeded] under
    "Stack size limit reached", [UnbalancedLoop] under "Syntax error".
    [MalformedProgram] is a kind of the specification that no throw site of
    the source raises. *)
Inductive failure : Type :=
  | InputError
  | ResourceLimitExceeded
  | UnbalancedLoop
  | MalformedProgram.

Inductive undefined : Type :=
  | ReadPastEnd (index : Z)
  | PopBackEmpty.

Inductive outcome : Type :=
  | Completed
  | Failed (kind : failure)
  | Undefined (what : undefined)
  | OutOfFuel.

(** ** The state of [main] during interpretation *)

Record machine : Type := Machine {
  stack : gmap Z Z;
  pointer : Z;
  loop_start_indices : list Z;
  lowest_cell : Z;
  greatest_cell : Z;
  operations : Z;
  left_shifts : Z;
  right_shifts : Z;
  index : Z;
  cin : string;
  cout : string;
  cerr : string
}.

Definition set_stack (x : gmap Z Z) (m : machine) : machine :=
  Machine x (pointer m) (loop_start_indices m) (lowest_cell m)
    (greatest_cell m) (operations m) (left_shifts m) (right_shifts m)
    (index m) (cin m) (cout m) (cerr m).

Definition set_pointer (x : Z) (m : machine) : machine :=
  Machine (stack m) x (loop_start_indices m) (lowest_cell m)
    (greatest_cell m) (operations m) (left_shifts m) (right_shifts m)
    (index m) (cin m) (cout m) (cerr m).

Definition set_loop_start_indices (x : list Z) (m : machine) : machine :=
  Machine (stack m) (pointer m) x (lowest_cell m)
    (greatest_cell m) (operations m) (left_shifts m) (right_shifts m)
    (index m) (cin m) (cout m) (cerr m).

Definition set_lowest_cell (x : Z) (m : machine) : machine :=
  Machine (stack m) (pointer m) (loop_start_indices m) x
    (greatest_cell m) (operations m) (left_shifts m) (right_shifts m)
    (index m) (cin m) (cout m) (cerr m).

Definition set_greatest_cell (x : Z) (m : machine) : machine :=
  Machine (stack m) (pointer m) (loop_start_indices m) (lowest_cell m)
    x (operations m) (left_shifts m) (right_shifts m)
    (index m) (cin m) (cout m) (cerr m).

Definition set_operations (x : Z) (m : machine) : machine :=
  Machine (stack m) (pointer m) (loop_start_indices m) (lowest_cell m)
    (greatest_cell m) x (left_shifts m) (right_shifts m)
    (index m) (cin m) (cout m) (cerr m).

Definition set_left_shifts (x : Z) (m : machine) : machine :=
  Machine (stack m) (pointer m) (loop_start_indices m) (lowest_cell m)
    (greatest_cell m) (operations m) x (right_shifts m)
    (index m) (cin m) (cout m) (cerr m).

Definition set_right_shifts (x : Z) (m : machine) : machine :=
  Machine (stack m) (pointer m) (loop_start_indices m) (lowest_cell m)
    (greatest_cell m) (operations m) (left_shifts m) x
    (index m) (cin m) (cout m) (cerr m).

Definition set_index (x : Z) (m : machine) : machine :=
  Machine (stack m) (pointer m) (loop_start_indices m) (lowest_cell m)
    (greatest_cell m) (operations m) (left_shifts m) (right_shifts m)
    x (cin m) (cout m) (cerr m).

Definition set_cin (x : string) (m : machine) : machine :=
  Machine (stack m) (pointer m) (loop_start_indices m) (lowest_cell m)
    (greatest_cell m) (operations m) (left_shifts m) (right_shifts m)
    (index m) x (cout m) (cerr m).

Definition set_cout (x : string) (m : machine) : machine :=
  Machine (stack m) (pointer m) (loop_start_indices m) (lowest_cell m)
    (greatest_cell m) (operations m) (left_shifts m) (right_shifts m)
    (index m) (cin m) x (cerr m).

Definition set_cerr (x : string) (m : machine) : machine :=
  Machine (stack m) (pointer m) (loop_start_indices m) (lowest_cell m)
    (greatest_cell m) (operations m) (left_shifts m) (right_shifts m)
    (index m) (cin m) (cout m) x.

(** The state at line 153, before the first iteration. *)
Definition initial (input : string) : machine :=
  Machine ∅ 0 [] 0 0 0 0 0 0 input EmptyString EmptyString.

(** What one pass through the loop body leaves behind: the next state, or
    the outcome that ends the run together with the state it was raised in. *)
Inductive step : Type :=
  | Next (m : machine)
  | Halt (o : outcome) (m : machine).

Definition state_of (s : step) : machine :=
  match s with Next m => m | Halt _ m => m end.

(** ** Console input: [get_input] *)

(** [getline(cin, input)] followed by [cin.good()]: the characters up to the
    next newline, which is consumed; when the stream ends before a newline
    the stream is no longer good, here [None]. *)
Fixpoint getline (stream : string) : option (string * string) :=
  match stream with
  | EmptyString => None
  | String c rest =>
      if Ascii.eqb c newline then Some (EmptyString, rest)
      else match getline rest with
           | Some (input, rest') => Some (String c input, rest')
           | None => None
           end
  end.

Definition prompt : string := String newline "> ".

(** [get_input]: the character read, or the state at the [throw]. *)
Definition get_input (m : machine) : machine * option ascii :=
  let m := set_cout (cout m ++ prompt)%string m in
  match getline (cin m) with
  | None => (set_cin EmptyString m, None)
  | Some (EmptyString, rest) =>
      (set_cerr (cerr m ++ "Input error")%string (set_cin rest m), None)
  | Some (String c _, rest) => (set_cin rest m, Some c)
  end.

(** ** Loop resolution: the forward scan of lines 209-220 *)

Inductive scan : Type :=
  | Found (index : Z)
  | PastEnd (index : Z)
  | ScanFuel.

(** [while(indentation) { index += 1; ... }]. Each turn reads one more index,
    and no read beyond [size] succeeds, so [size + 2] turns are never used
    up (lemma [skip_scan_fuel] below). *)
Fixpoint skip_scan (fuel : nat) (instructions : string)
    (index indentation : Z) : scan :=
  if indentation =? 0 then Found index
  else
    match fuel with
    | O => ScanFuel
    | S fuel' =>
        let index := index + 1 in
        match string_at instructions index with
        | None => PastEnd index
        | Some c =>
            skip_scan fuel' instructions index
              (if Ascii.eqb c "["%char then indentation + 1
               else if Ascii.eqb c "]"%char then indentation - 1
               else indentation)
        end
    end.

Definition scan_fuel (instructions : string) : nat :=
  S (S (String.length instructions)).

(** ** The interpretation loop of [main], lines 153-254 *)

(** The number of cells the extrema span, less one: the quantity of lines
    162 and 267. *)
Definition span (m : machine) : Z :=
  Z.abs (greatest_cell m) + Z.abs (lowest_cell m).

(** The body of the [for] loop, from [instruction = instructions[index]] to
    the closing brace; [index] in the result is the value the body leaves,
    before the loop's own [index += 1]. *)
Definition body (instructions : string) (cell_limit : Z) (m : machine) : step :=
  match string_at instructions (index m) with
  | None => Halt (Undefined (ReadPastEnd (index m))) m
  | Some instruction =>
    let m := set_operations (operations m + 1) m in
    if span m >? cell_limit then
      Halt (Failed ResourceLimitExceeded)
        (set_cerr (cerr m ++ "Stack size limit reached")%string m)
    else if Ascii.eqb instruction "+"%char then
      Next (set_stack
              (<[pointer m := wrap_char (cell (stack m) (pointer m) + 1)]>
                 (stack m)) m)
    else if Ascii.eqb instruction "-"%char then
      Next (set_stack
              (<[pointer m := wrap_char (cell (stack m) (pointer m) - 1)]>
                 (stack m)) m)
    else if Ascii.eqb instruction ">"%char then
      let m := set_pointer (pointer m + 1) m in
      let m := set_right_shifts (right_shifts m + 1) m in
      Next (set_lowest_cell (Z.min (pointer m) (lowest_cell m)) m)
    else if Ascii.eqb instruction "<"%char then
      let m := set_pointer (pointer m - 1) m in
      let m := set_left_shifts (left_shifts m + 1) m in
      Next (set_greatest_cell (Z.max (pointer m) (greatest_cell m)) m)
    else if Ascii.eqb instruction "."%char then
      let v := cell (stack m) (pointer m) in
      let m := set_stack (touch (stack m) (pointer m)) m in
      let output :=
        if (v <? 32) || (v >? 126) then "?"%char else ascii_of_char v in
      Next (set_cout (cout m ++ String output EmptyString)%string m)
    else if Ascii.eqb instruction ","%char then
      match get_input m with
      | (m, Some c) =>
          Next (set_stack (<[pointer m := char_of_ascii c]> (stack m)) m)
      | (m, None) => Halt (Failed InputError) m
      end
    else if Ascii.eqb instruction "["%char then
      let v := cell (stack m) (pointer m) in
      let m := set_stack (touch (stack m) (pointer m)) m in
      if v =? 0 then
        match skip_scan (scan_fuel instructions) instructions (index m) 1 with
        | Found index' => Next (set_index index' m)
        | PastEnd index' => Halt (Undefined (ReadPastEnd index')) m
        | ScanFuel => Halt OutOfFuel m
        end
      else if vec_empty (loop_start_indices m)
              || (negb (vec_empty (loop_start_indices m))
                  && negb (vec_back (loop_start_indices m) =? index m)) then
        Next (set_loop_start_indices
                (vec_push_back (loop_start_indices m) (index m)) m)
      else Next m
    else if Ascii.eqb instruction "]"%char then
      let v := cell (stack m) (pointer m) in
      let m := set_stack (touch (stack m) (pointer m)) m in
      if negb (v =? 0) then
        if negb (vec_empty (loop_start_indices m)) then
          Next (set_index (vec_back (loop_start_indices m)) m)
        else
          Halt (Failed UnbalancedLoop)
            (set_cout (cout m ++ "Syntax error")%string m)
      else
        match vec_pop_back (loop_start_indices m) with
        | Some v' => Next (set_loop_start_indices v' m)
        | None => Halt (Undefined PopBackEmpty) m
        end
    else Next m
  end.

(** One iteration: the body, then the loop's [index += 1]. *)
Definition iteration (instructions : string) (cell_limit : Z)
    (m : machine) : step :=
  match body instructions cell_limit m with
  | Next m' => Next (set_index (index m' + 1) m')
  | Halt o m' => Halt o m'
  end.

(** [index < instructions.size()]: the [int] is converted to [size_t], so
    that a negative index compares greater than any size. *)
Definition loop_guard (instructions : string) (m : machine) : bool :=
  (0 <=? index m) && (index m <? size instructions).

(** The [for] loop; [fuel] bounds the number of iterations. *)
Fixpoint main_loop (fuel : nat) (instructions : string) (cell_limit : Z)
    (m : machine) : outcome * machine :=
  if loop_guard instructions m then
    match fuel with
    | O => (OutOfFuel, m)
    | S fuel' =>
        match iteration instructions cell_limit m with
        | Next m' => main_loop fuel' instructions cell_limit m'
        | Halt o m' => (o, m')
        end
    end
  else (Completed, m).

(** A run from the initial state; 256 is the limit [main] starts with. *)
Definition default_cell_limit : Z := 256.

Definition execute (fuel : nat) (instructions : string) (cell_limit : Z)
    (input : string) : outcome * machine :=
  main_loop fuel instructions cell_limit (initial input).

(** The state after [n] iterations, while the loop keeps going. *)
Fixpoint iterate (n : nat) (instructions : string) (cell_limit : Z)
    (m : machine) : option machine :=
  match n with
  | O => Some m
  | S n' =>
      if loop_guard instructions m then
        match iteration instructions cell_limit m with
        | Next m' => iterate n' instructions cell_limit m'
        | Halt _ _ => None
        end
      else None
  end.

(** ** Quantities the properties are stated with *)

(** The state the resource check leaves when it trips: one more operation
    counted, the message on the error stream, nothing else touched. *)
Definition tripped (m : machine) : machine :=
  set_cerr (cerr m ++ "Stack size limit reached")%string
    (set_operations (operations m + 1) m).

(** Increments less decrements, as the wrap-around law counts them. *)
Fixpoint net (instructions : string) : Z :=
  match instructions with
  | EmptyString => 0
  | String c rest =>
      (if Ascii.eqb c "+"%char then 1
       else if Ascii.eqb c "-"%char then -1 else 0) + net rest
  end.

Fixpoint only_plus_minus (instructions : string) : bool :=
  match instructions with
  | EmptyString => true
  | String c rest =>
      (Ascii.eqb c "+"%char || Ascii.eqb c "-"%char) && only_plus_minus rest
  end.

(** ** States used as instances below *)

(** After [>>><] under the limit 1: the cursor at 2, [greatest_cell] at 2. *)
Definition after_excursion : machine :=
  Machine ∅ 2 [] 0 2 4 1 3 4 "" "" "".

(** [++[-]] about to take up its []]: the cell at 1, the loop start recorded. *)
Definition at_loop_end : machine :=
  Machine (<[0 := 1]> ∅) 0 [2] 0 0 4 0 0 4 "" "" "".

(** A [[] about to be taken up with a zero cell and two loop starts recorded. *)
Definition at_loop_start : machine :=
  Machine ∅ 3 [7; 1] 0 0 9 0 0 2 "" "" "".

(** The cursor at address 5 on a cell holding the greatest [char]. *)
Definition at_greatest_char : machine :=
  Machine (<[5 := 127]> ∅) 5 [] 0 0 0 0 0 0 "" "" "".

(** [+-[>>+<<].] after its first two instructions. *)
Definition before_skip : machine :=
  Machine (<[0 := 0]> ∅) 0 [] 0 0 2 0 0 2 "" "" "".

(** ** Notions the further properties are stated with *)


Fixpoint all_chars (p : ascii -> bool) (s : string) : bool :=
  match s with
  | EmptyString => true
  | String c rest => p c && all_chars p rest
  end.

Fixpoint count_char (c : ascii) (s : string) : Z :=
  match s with
  | EmptyString => 0
  | String c' rest => (if Ascii.eqb c' c then 1 else 0) + count_char c rest
  end.

(** Characters other than [<], the brackets and [,]. *)
Definition no_left (c : ascii) : bool :=
  negb (Ascii.eqb c "<") && negb (Ascii.eqb c "[")
  && negb (Ascii.eqb c "]") && negb (Ascii.eqb c ",").

(** The values of a [char]. *)
Definition is_char (v : Z) : Prop := -128 <= v <= 127.

(** A tape all of whose cells hold values of a [char]. *)
Definition tape_of_chars (s : gmap Z Z) : Prop :=
  forall p v, s !! p = Some v -> is_char v.

(** The bytes [.] writes unchanged: [' '] to ['~']. *)
Definition printable (c : ascii) : bool :=
  (32 <=? nat_of_ascii c)%nat && (nat_of_ascii c <=? 126)%nat.

(** The states a run from the initial state passes through. *)
Definition reachable (instructions : string) (cell_limit : Z)
    (input : string) (m : machine) : Prop :=
  exists n, iterate n instructions cell_limit (initial input) = Some m.

(** Text with matching brackets: the loops of a well-formed program. *)
Inductive balanced : string -> Prop :=
  | balanced_end : balanced EmptyString
  | balanced_char c b :
      c <> "["%char -> c <> "]"%char -> balanced b -> balanced (String c b)
  | balanced_loop b1 b2 :
      balanced b1 -> balanced b2 ->
      balanced (String "[" (b1 ++ String "]" b2)).

(** The invariant of the shift counters and the extrema. *)
Definition shifts_bound (m : machine) : Prop :=
  pointer m = right_shifts m - left_shifts m /\
  0 <= left_shifts m /\ 0 <= right_shifts m /\
  - left_shifts m <= lowest_cell m <= 0 /\
  0 <= greatest_cell m <= right_shifts m /\
  left_shifts m + right_shifts m <= operations m.

(** ** The command line: lines 49-133 of [main] *)

(** [isspace] in the C locale. *)
Definition isspace (c : ascii) : bool :=
  (nat_of_ascii c =? 32)%nat
  || ((9 <=? nat_of_ascii c)%nat && (nat_of_ascii c <=? 13)%nat).

Definition digit_value (c : ascii) : option Z :=
  if (48 <=? nat_of_ascii c)%nat && (nat_of_ascii c <=? 57)%nat
  then Some (Z.of_nat (nat_of_ascii c) - 48)
  else None.

Fixpoint skip_spaces (s : string) : string :=
  match s with
  | EmptyString => EmptyString
  | String c rest => if isspace c then skip_spaces rest else s
  end.

(** The value of the longest prefix of decimal digits. *)
Fixpoint leading_digits (s : string) (value : Z) : Z :=
  match s with
  | EmptyString => value
  | String c rest =>
      match digit_value c with
      | Some d => leading_digits rest (value * 10 + d)
      | None => value
      end
  end.

Definition starts_with_digit (s : string) : bool :=
  match s with
  | EmptyString => false
  | String c _ => match digit_value c with Some _ => true | None => false end
  end.

Definition INT_MIN : Z := - 2 ^ 31.
Definition INT_MAX : Z := 2 ^ 31 - 1.

(** [std::stoi] in base 10: white space is skipped, a sign is optional, the
    longest run of digits is converted and what follows it is ignored. With
    no digit to convert, or a value that is no [int], it throws: [None]. *)
Definition stoi (s : string) : option Z :=
  let s := skip_spaces s in
  let '(negative, s) :=
    match s with
    | String c rest =>
        if Ascii.eqb c "-" then (true, rest)
        else if Ascii.eqb c "+" then (false, rest)
        else (false, s)
    | EmptyString => (false, s)
    end in
  if starts_with_digit s then
    let value := leading_digits s 0 in
    let value := if negative then - value else value in
    if (INT_MIN <=? value) && (value <=? INT_MAX) then Some value else None
  else None.

(** The variables the command line sets: [verbose], [cell_limit] and
    [instructions]. *)
Record options : Type := Options {
  opt_verbose : bool;
  opt_cell_limit : Z;
  opt_instructions : string
}.

(** The messages under which the parsing throws. *)
Inductive usage_error : Type :=
  | NoArguments
  | FileAndLiteral
  | CannotOpen (file_name : string)
  | NoLimitValue
  | LimitNotParseable.

Definition is_empty (s : string) : bool :=
  match s with EmptyString => true | String _ _ => false end.

(** The loop of lines 72-133 over the arguments that follow the program
    name. [files] gives the content of each regular file that can be opened
    for reading. *)
Fixpoint parse_loop (files : string -> option string)
    (arguments : list string) (o : options) : usage_error + options :=
  match arguments with
  | [] => inr o
  | argument :: rest =>
      if String.eqb argument "-f" then
        match rest with
        | [] => inl FileAndLiteral
        | file_name :: rest' =>
            if negb (is_empty (opt_instructions o)) then inl FileAndLiteral
            else
              match files file_name with
              | None => inl (CannotOpen file_name)
              | Some content =>
                  parse_loop files rest'
                    (Options (opt_verbose o) (opt_cell_limit o) content)
              end
        end
      else if String.eqb argument "-l" then
        match rest with
        | [] => inl NoLimitValue
        | value :: rest' =>
            match stoi value with
            | None => inl LimitNotParseable
            | Some limit =>
                parse_loop files rest'
                  (Options (opt_verbose o) limit (opt_instructions o))
            end
        end
      else if String.eqb argument "-v" then
        parse_loop files rest
          (Options true (opt_cell_limit o) (opt_instructions o))
      else if negb (is_empty (opt_instructions o)) then inl FileAndLiteral
      else
        parse_loop files rest
          (Options (opt_verbose o) (opt_cell_limit o)
             (opt_instructions o ++ argument))
  end.

(** Lines 49-57 and the loop: no argument at all is refused; the variables
    start as [false], 256 and the empty string. *)
Definition parse_arguments (files : string -> option string)
    (arguments : list string) : usage_error + options :=
  match arguments with
  | [] => inl NoArguments
  | _ :: _ =>
      parse_loop files arguments
        (Options false default_cell_limit EmptyString)
  end.

(** ** Proof steps *)

(** Enter the body at a known instruction with the bound respected. *)
Ltac enter_body Hc Hlim :=
  unfold body; rewrite Hc;
  match goal with
  | |- context [span (set_operations ?k ?m) >? ?l] =>
      change (span (set_operations k m)) with (span m);
      let E := fresh "E" in
      destruct (span m >? l) eqn:E;
      [rewrite Z.gtb_ltb in E; apply Z.ltb_lt in E; lia | clear E]
  end;
  simpl (Ascii.eqb _ _); cbv iota zeta.

(** Split a pass that goes on into its leaves. *)
Ltac body_leaves Hb :=
  unfold body in Hb;
  match type of Hb with
  | context [string_at ?s ?i] =>
      let c := fresh "c" in
      let Hc := fresh "Hc" in
      destruct (string_at s i) as [c|] eqn:Hc; [|discriminate Hb]
  end;
  cbv zeta in Hb;
  repeat match type of Hb with
         | context [if ?b then _ else _] =>
             let E := fresh "E" in destruct b eqn:E
         | context [match ?x with _ => _ end] =>
             let E := fresh "E" in destruct x eqn:E
         end;
  try discriminate Hb;
  injection Hb as Hb; subst.

(** * Properties *)

(** ** Program representation *)

(** The scan counts the characters of [operators], whatever the counter
    starts from. *)
Lemma count_loop_shift instructions k :
  count_loop instructions k = k + count_loop instructions 0.
Proof.
  revert k. induction instructions as [|c rest IH]; intros k;
    cbn [count_loop].
  - lia.
  - rewrite IH. rewrite (IH (if find operators c then 0 + 1 else 0)).
    destruct (find operators c); lia.
Qed.

Lemma count_operators_cons c rest :
  count_operators (String c rest) =
  (if find operators c then 1 else 0) + count_operators rest.
Proof.
  unfold count_operators. cbn [count_loop]. rewrite count_loop_shift.
  destruct (find operators c); reflexivity.
Qed.

(** C6: the operator set of the source is [+ - . / < > [ ]]: a comma, the
    input operator, is not counted, and a slash, which is no operator, is. *)
Theorem count_operators_comma_slash :
  count_operators "," = 0 /\ count_operators "/" = 1 /\
  count_operators "+-<>.,[]" = 7.
Proof. repeat split; reflexivity. Qed.

(** ** Reading the instruction string *)

Lemma get_in_range (s : string) (n : nat) :
  (n < String.length s)%nat -> exists c, String.get n s = Some c.
Proof.
  revert n. induction s as [|c s IH]; intros n Hn; simpl in Hn.
  - lia.
  - destruct n as [|n]; simpl.
    + eauto.
    + apply IH. lia.
Qed.

Lemma get_append_here (pre : string) c (suf : string) :
  String.get (String.length pre) (pre ++ String c suf)%string = Some c.
Proof. induction pre as [|a pre IH]; simpl; auto. Qed.

Lemma length_append (s1 s2 : string) :
  String.length (s1 ++ s2)%string = (String.length s1 + String.length s2)%nat.
Proof. induction s1 as [|a s1 IH]; simpl; auto. Qed.

Lemma string_at_guard instructions m :
  loop_guard instructions m = true ->
  exists c, string_at instructions (index m) = Some c.
Proof.
  unfold loop_guard, string_at. intros H. rewrite H.
  apply andb_true_iff in H as [H0 H1].
  apply Z.leb_le in H0. apply Z.ltb_lt in H1. unfold size in H1.
  apply get_in_range. lia.
Qed.

Lemma string_at_range instructions i c :
  string_at instructions i = Some c -> 0 <= i <= size instructions.
Proof.
  unfold string_at.
  destruct (0 <=? i) eqn:H0; destruct (i <? size instructions) eqn:H1;
    simpl; try destruct (i =? size instructions) eqn:H2; try discriminate;
    intros _.
  all: try apply Z.leb_le in H0; try apply Z.ltb_lt in H1;
    try apply Z.eqb_eq in H2; unfold size in *; lia.
Qed.

(** ** The forward scan never runs out of turns *)

Lemma skip_scan_turns fuel instructions i d :
  (0 < fuel)%nat -> size instructions - i < Z.of_nat fuel ->
  skip_scan fuel instructions i d <> ScanFuel.
Proof.
  revert i d. induction fuel as [|fuel IH]; intros i d Hpos Hfuel; [lia|].
  cbn [skip_scan]. destruct (d =? 0); [discriminate|].
  destruct (string_at instructions (i + 1)) as [c|] eqn:Hc; [|discriminate].
  apply string_at_range in Hc. apply IH; lia.
Qed.

Lemma skip_scan_fuel instructions i d :
  0 <= i -> skip_scan (scan_fuel instructions) instructions i d <> ScanFuel.
Proof.
  intros Hi. apply skip_scan_turns; unfold scan_fuel, size; lia.
Qed.

(** The index a scan stops at lies beyond the index it started from. *)
Lemma skip_scan_forward fuel instructions i d j :
  skip_scan fuel instructions i d = Found j -> i <= j /\ (d <> 0 -> i < j).
Proof.
  revert i d. induction fuel as [|fuel IH]; intros i d; cbn [skip_scan];
    destruct (d =? 0) eqn:Hd.
  - intros [= <-]. apply Z.eqb_eq in Hd. lia.
  - discriminate.
  - intros [= <-]. apply Z.eqb_eq in Hd. lia.
  - destruct (string_at instructions (i + 1)) as [c|]; [|discriminate].
    intros H. apply IH in H. lia.
Qed.

(** ** Fuel of the main loop *)

Lemma main_loop_iterate n k instructions cell_limit m m' :
  iterate n instructions cell_limit m = Some m' ->
  main_loop (n + k) instructions cell_limit m =
  main_loop k instructions cell_limit m'.
Proof.
  revert m. induction n as [|n IH]; intros m; cbn [iterate].
  - intros [= <-]. reflexivity.
  - cbn [Nat.add main_loop]. destruct (loop_guard instructions m);
      [|discriminate].
    destruct (iteration instructions cell_limit m) as [m1|o m1];
      [|discriminate].
    apply IH.
Qed.

Lemma main_loop_more_fuel fuel k instructions cell_limit m o m' :
  main_loop fuel instructions cell_limit m = (o, m') -> o <> OutOfFuel ->
  main_loop (fuel + k) instructions cell_limit m = (o, m').
Proof.
  revert m. induction fuel as [|fuel IH]; intros m; cbn [Nat.add main_loop].
  - destruct (loop_guard instructions m) eqn:Hg.
    + intros [= <- <-] Ho. congruence.
    + intros H _. destruct k; cbn [main_loop]; rewrite Hg; exact H.
  - destruct (loop_guard instructions m); [|auto].
    destruct (iteration instructions cell_limit m) as [m1|o1 m1]; auto.
Qed.

(** ** One pass through the loop body *)

Lemma body_tripped instructions cell_limit m c :
  string_at instructions (index m) = Some c ->
  cell_limit < span m ->
  body instructions cell_limit m =
  Halt (Failed ResourceLimitExceeded) (tripped m).
Proof.
  intros Hc Hlim. unfold body. rewrite Hc.
  change (span (set_operations (operations m + 1) m)) with (span m).
  destruct (span m >? cell_limit) eqn:Hgt; [reflexivity|].
  rewrite Z.gtb_ltb in Hgt. apply Z.ltb_ge in Hgt. lia.
Qed.

Lemma body_within instructions cell_limit m :
  span m <= cell_limit ->
  forall m', body instructions cell_limit m <>
             Halt (Failed ResourceLimitExceeded) m'.
Proof.
  intros Hlim m'. unfold body.
  destruct (string_at instructions (index m)) as [c|]; [|discriminate].
  change (span (set_operations (operations m + 1) m)) with (span m).
  destruct (span m >? cell_limit) eqn:Hgt.
  { rewrite Z.gtb_ltb in Hgt. apply Z.ltb_lt in Hgt. lia. }
  cbv zeta.
  repeat match goal with
         | |- context [if ?b then _ else _] => destruct b
         | |- context [match ?x with _ => _ end] => destruct x
         end; discriminate.
Qed.

(** [+] and [-]: the cell under the cursor, wrapped. *)
Lemma body_plus instructions cell_limit m :
  string_at instructions (index m) = Some "+"%char ->
  span m <= cell_limit ->
  body instructions cell_limit m =
  Next (set_stack
          (<[pointer m := wrap_char (cell (stack m) (pointer m) + 1)]>
             (stack m))
          (set_operations (operations m + 1) m)).
Proof. intros Hc Hlim. enter_body Hc Hlim. reflexivity. Qed.

Lemma body_minus instructions cell_limit m :
  string_at instructions (index m) = Some "-"%char ->
  span m <= cell_limit ->
  body instructions cell_limit m =
  Next (set_stack
          (<[pointer m := wrap_char (cell (stack m) (pointer m) - 1)]>
             (stack m))
          (set_operations (operations m + 1) m)).
Proof. intros Hc Hlim. enter_body Hc Hlim. reflexivity. Qed.

(** [[] on a zero cell: the forward scan, and nothing else. *)
Lemma body_open_zero instructions cell_limit m :
  string_at instructions (index m) = Some "["%char ->
  span m <= cell_limit ->
  cell (stack m) (pointer m) = 0 ->
  body instructions cell_limit m =
  let m1 := set_stack (touch (stack m) (pointer m))
              (set_operations (operations m + 1) m) in
  match skip_scan (scan_fuel instructions) instructions (index m) 1 with
  | Found j => Next (set_index j m1)
  | PastEnd j => Halt (Undefined (ReadPastEnd j)) m1
  | ScanFuel => Halt OutOfFuel m1
  end.
Proof.
  intros Hc Hlim Hz. enter_body Hc Hlim.
  change (cell (stack (set_operations (operations m + 1) m))
            (pointer (set_operations (operations m + 1) m)))
    with (cell (stack m) (pointer m)).
  rewrite Hz. reflexivity.
Qed.

(** []] on a non-zero cell, with a loop start recorded. *)
Lemma body_close_repeat instructions cell_limit m :
  string_at instructions (index m) = Some "]"%char ->
  span m <= cell_limit ->
  cell (stack m) (pointer m) <> 0 ->
  loop_start_indices m <> [] ->
  body instructions cell_limit m =
  Next (set_index (vec_back (loop_start_indices m))
          (set_stack (touch (stack m) (pointer m))
             (set_operations (operations m + 1) m))).
Proof.
  intros Hc Hlim Hnz Hne. enter_body Hc Hlim.
  change (cell (stack (set_operations (operations m + 1) m))
            (pointer (set_operations (operations m + 1) m)))
    with (cell (stack m) (pointer m)).
  destruct (cell (stack m) (pointer m) =? 0) eqn:E;
    [apply Z.eqb_eq in E; contradiction|].
  cbn [negb]. cbv iota.
  destruct (loop_start_indices m) as [|x v] eqn:Hv; [contradiction|].
  unfold set_stack, set_operations. cbn. rewrite Hv. reflexivity.
Qed.

(** [get_input] works on the console streams only. *)
Lemma get_input_frame m :
  let m' := (get_input m).1 in
  stack m' = stack m /\ pointer m' = pointer m /\
  loop_start_indices m' = loop_start_indices m /\
  lowest_cell m' = lowest_cell m /\ greatest_cell m' = greatest_cell m /\
  operations m' = operations m /\ index m' = index m.
Proof.
  unfold get_input. cbv zeta.
  destruct (getline _) as [[[|c input] rest]|]; repeat split; reflexivity.
Qed.

(** Every pass counts one operation, whatever the instruction and whatever
    the way the pass ends. *)
Lemma body_operations instructions cell_limit m c :
  string_at instructions (index m) = Some c ->
  operations (state_of (body instructions cell_limit m)) = operations m + 1.
Proof.
  intros Hc. unfold body. rewrite Hc. cbv zeta.
  pose proof (get_input_frame (set_operations (operations m + 1) m))
    as (_ & _ & _ & _ & _ & Hops & _).
  destruct (get_input _) as [m1 [c1|]]; cbn [fst] in Hops.
  all: repeat match goal with
         | |- context [if ?b then _ else _] => destruct b
         | |- context [match ?x with _ => _ end] => destruct x
         end; try reflexivity; exact Hops.
Qed.

Lemma iteration_tripped instructions cell_limit m :
  loop_guard instructions m = true ->
  cell_limit < span m ->
  iteration instructions cell_limit m =
  Halt (Failed ResourceLimitExceeded) (tripped m).
Proof.
  intros Hg Hlim. destruct (string_at_guard _ _ Hg) as [c Hc].
  unfold iteration. rewrite (body_tripped _ _ _ _ Hc Hlim). reflexivity.
Qed.

Lemma iteration_within instructions cell_limit m m' :
  span m <= cell_limit ->
  iteration instructions cell_limit m <> Halt (Failed ResourceLimitExceeded) m'.
Proof.
  intros Hlim. unfold iteration.
  destruct (body instructions cell_limit m) as [m1|o m1] eqn:Hb;
    [discriminate|].
  intros [= -> ->]. exact (body_within _ _ _ Hlim _ Hb).
Qed.

Lemma main_loop_done fuel instructions cell_limit m :
  loop_guard instructions m = false ->
  main_loop fuel instructions cell_limit m = (Completed, m).
Proof. intros Hg. destruct fuel; cbn [main_loop]; rewrite Hg; reflexivity. Qed.

(** ** The resource bound *)

(** C1, as stated, fails on [>>><] under the limit 1: the fourth instruction
    takes the sum of the absolute values of the extrema from 0 to 2, above
    the limit, and the run completes, no instruction being left to check the
    bound at. *)
Lemma span_excess_on_last_instruction :
  span <$> iterate 3 ">>><" 1 (initial "") = Some 0 /\
  span <$> iterate 4 ">>><" 1 (initial "") = Some 2 /\
  (execute 4 ">>><" 1 "").1 = Completed /\
  span (execute 4 ">>><" 1 "").2 = 2.
Proof. repeat split; vm_compute; reflexivity. Qed.

(** C1 (amended): the bound is checked when an instruction is taken up, before
    anything of it is executed. If, after any number of iterations, the sum of
    the absolute values of the two extrema exceeds the limit, the run fails
    with [ResourceLimitExceeded] at the next instruction taken up, the state
    being the one the excursion left but for the operation counted and the
    message; when no instruction is left, the run completes. *)
Theorem resource_bound_checked_at_dispatch
    instructions cell_limit input n m fuel :
  iterate n instructions cell_limit (initial input) = Some m ->
  cell_limit < span m ->
  (n < fuel)%nat ->
  execute fuel instructions cell_limit input =
  if loop_guard instructions m
  then (Failed ResourceLimitExceeded, tripped m)
  else (Completed, m).
Proof.
  intros Hn Hlim Hfuel. unfold execute.
  replace fuel with (n + S (fuel - n - 1))%nat by lia.
  rewrite (main_loop_iterate _ _ _ _ _ _ Hn).
  destruct (loop_guard instructions m) eqn:Hg.
  - cbn [main_loop]. rewrite Hg, iteration_tripped by assumption.
    reflexivity.
  - apply main_loop_done, Hg.
Qed.

Lemma resource_bound_checked_at_dispatch_witness :
  iterate 4 ">>><+" 1 (initial "") = Some after_excursion /\
  1 < span after_excursion /\
  (4 < 5)%nat /\
  execute 5 ">>><+" 1 "" =
    (Failed ResourceLimitExceeded,
     Machine ∅ 2 [] 0 2 5 1 3 4 "" "" "Stack size limit reached").
Proof.
  split; [reflexivity|]. split; [reflexivity|]. split; [lia|].
  apply (resource_bound_checked_at_dispatch ">>><+" 1 "" 4
           after_excursion 5);
    [reflexivity | reflexivity | lia].
Defined.

(** ** The span extrema *)

(** What the two moves do to the extrema, on every state: [>] can only lower
    [lowest_cell] and never touches [greatest_cell]; [<] can only raise
    [greatest_cell] and never touches [lowest_cell]. *)
Lemma body_right instructions cell_limit m :
  string_at instructions (index m) = Some ">"%char ->
  span m <= cell_limit ->
  exists m',
    body instructions cell_limit m = Next m' /\
    pointer m' = pointer m + 1 /\
    lowest_cell m' = Z.min (pointer m + 1) (lowest_cell m) /\
    greatest_cell m' = greatest_cell m.
Proof.
  intros Hc Hlim. enter_body Hc Hlim. eexists. split; [reflexivity|].
  repeat split.
Qed.

Lemma body_left instructions cell_limit m :
  string_at instructions (index m) = Some "<"%char ->
  span m <= cell_limit ->
  exists m',
    body instructions cell_limit m = Next m' /\
    pointer m' = pointer m - 1 /\
    greatest_cell m' = Z.max (pointer m - 1) (greatest_cell m) /\
    lowest_cell m' = lowest_cell m.
Proof.
  intros Hc Hlim. enter_body Hc Hlim. eexists. split; [reflexivity|].
  repeat split.
Qed.

(** C2: a move to the right leaves both extrema at 0 although the cursor has
    reached address 1, and a move to the left leaves both at 0 although it
    has reached address -1: [>] updates [lowest_cell] with a minimum and [<]
    updates [greatest_cell] with a maximum. *)
Theorem extrema_miss_the_excursion :
  (let r := execute 1 ">" default_cell_limit "" in
   r.1 = Completed /\ pointer r.2 = 1 /\
   greatest_cell r.2 = 0 /\ lowest_cell r.2 = 0) /\
  (let r := execute 1 "<" default_cell_limit "" in
   r.1 = Completed /\ pointer r.2 = -1 /\
   greatest_cell r.2 = 0 /\ lowest_cell r.2 = 0).
Proof. repeat split; vm_compute; reflexivity. Qed.

(** ** Unbalanced brackets *)

(** C3: on a fresh engine the cell under the cursor is zero, so a lone []]
    takes the branch that pops the loop-start buffer, which is empty; the
    run does not reach the throw under "Syntax error". *)
Theorem lone_close_pops_empty_buffer fuel (limit : positive) input :
  (execute (S fuel) "]" (Z.pos limit) input).1 = Undefined PopBackEmpty /\
  cout (execute (S fuel) "]" (Z.pos limit) input).2 = EmptyString.
Proof. split; vm_compute; reflexivity. Qed.

(** The sibling branch: with a non-zero cell the empty buffer is detected. *)
Lemma close_on_live_cell_is_unbalanced fuel (limit : positive) input :
  (execute (S (S fuel)) "+]" (Z.pos limit) input).1 = Failed UnbalancedLoop.
Proof. vm_compute. reflexivity. Qed.

(** C5: on a fresh engine a lone [[] scans forward: it reads index 1, the
    terminator of the string, and then index 2, beyond the string; the run
    neither completes nor fails. *)
Theorem lone_open_reads_past_end fuel (limit : positive) input :
  skip_scan (scan_fuel "[") "[" 0 1 = PastEnd 2 /\
  string_at "[" 2 = None /\
  (execute (S fuel) "[" (Z.pos limit) input).1 = Undefined (ReadPastEnd 2).
Proof. repeat split; vm_compute; reflexivity. Qed.

(** ** Loop resolution *)

(** C4, as stated, fails on [++[-]]: when the []] at index 4 is executed with
    the cell at 1 and the loop start 2 recorded, the next instruction taken
    up is the [-] at index 3, not the [[] at index 2. *)
Lemma repeat_resumes_after_loop_start :
  match iterate 4 "++[-]" default_cell_limit (initial "") with
  | Some m =>
      string_at "++[-]" (index m) = Some "]"%char /\
      cell (stack m) (pointer m) = 1 /\
      loop_start_indices m = [2] /\
      match iteration "++[-]" default_cell_limit m with
      | Next m' =>
          index m' = 3 /\ string_at "++[-]" (index m') = Some "-"%char /\
          loop_start_indices m' = [2] /\ operations m' = 5
      | Halt _ _ => False
      end
  | None => False
  end.
Proof. vm_compute. repeat split. Qed.

(** C4 (amended): when []] is executed with a non-zero cell under the cursor
    and a non-empty loop-start buffer, the body sets the instruction index to
    the back of the buffer and pops nothing; the loop's increment follows, so
    that the next instruction taken up is the one after the [[]. *)
Theorem close_bracket_repeats_after_loop_start instructions cell_limit m :
  string_at instructions (index m) = Some "]"%char ->
  span m <= cell_limit ->
  cell (stack m) (pointer m) <> 0 ->
  vec_empty (loop_start_indices m) = false ->
  let m1 := set_stack (touch (stack m) (pointer m))
              (set_operations (operations m + 1) m) in
  body instructions cell_limit m =
    Next (set_index (vec_back (loop_start_indices m)) m1) /\
  iteration instructions cell_limit m =
    Next (set_index (vec_back (loop_start_indices m) + 1) m1) /\
  loop_start_indices m1 = loop_start_indices m.
Proof.
  intros Hc Hlim Hnz Hne m1.
  assert (Hv : loop_start_indices m <> []).
  { intros E. rewrite E in Hne. discriminate. }
  pose proof (body_close_repeat _ _ _ Hc Hlim Hnz Hv) as Hb.
  unfold iteration. rewrite Hb. repeat split.
Qed.

Lemma close_bracket_repeats_after_loop_start_witness :
  string_at "++[-]" (index at_loop_end) = Some "]"%char /\
  span at_loop_end <= 256 /\
  cell (stack at_loop_end) (pointer at_loop_end) <> 0 /\
  vec_empty (loop_start_indices at_loop_end) = false /\
  iteration "++[-]" 256 at_loop_end =
    Next (Machine (<[0 := 1]> ∅) 0 [2] 0 0 5 0 0 3 "" "" "").
Proof.
  assert (H1 : string_at "++[-]" (index at_loop_end) = Some "]"%char)
    by reflexivity.
  assert (H2 : span at_loop_end <= 256) by (vm_compute; discriminate).
  assert (H3 : cell (stack at_loop_end) (pointer at_loop_end) <> 0)
    by (vm_compute; lia).
  assert (H4 : vec_empty (loop_start_indices at_loop_end) = false)
    by reflexivity.
  split; [exact H1|]. split; [exact H2|]. split; [exact H3|].
  split; [exact H4|].
  exact (proj1 (proj2
    (close_bracket_repeats_after_loop_start "++[-]" 256 at_loop_end
       H1 H2 H3 H4))).
Defined.

(** C9: a [[] taken up with a zero cell under the cursor leaves the
    loop-start buffer as it was, whatever it holds and whichever way the
    pass ends; the pass never ends for want of scan turns. *)
Theorem open_on_zero_keeps_loop_starts instructions cell_limit m :
  string_at instructions (index m) = Some "["%char ->
  cell (stack m) (pointer m) = 0 ->
  loop_start_indices (state_of (body instructions cell_limit m)) =
    loop_start_indices m /\
  loop_start_indices (state_of (iteration instructions cell_limit m)) =
    loop_start_indices m /\
  forall m', iteration instructions cell_limit m <> Halt OutOfFuel m'.
Proof.
  intros Hc Hz. unfold iteration.
  destruct (Z.lt_ge_cases cell_limit (span m)) as [Hlim|Hlim].
  - rewrite (body_tripped _ _ _ _ Hc Hlim). repeat split. discriminate.
  - rewrite (body_open_zero _ _ _ Hc Hlim Hz). cbv zeta.
    pose proof (skip_scan_fuel instructions (index m) 1
                  (proj1 (string_at_range _ _ _ Hc))) as Hfuel.
    destruct (skip_scan _ _ _ _) as [j|j|]; try contradiction;
      repeat split; discriminate.
Qed.

Lemma open_on_zero_keeps_loop_starts_witness :
  string_at "+-[+]-" (index at_loop_start) = Some "["%char /\
  cell (stack at_loop_start) (pointer at_loop_start) = 0 /\
  loop_start_indices (state_of (iteration "+-[+]-" 256 at_loop_start)) =
    [7; 1].
Proof.
  assert (H1 : string_at "+-[+]-" (index at_loop_start) = Some "["%char)
    by reflexivity.
  assert (H2 : cell (stack at_loop_start) (pointer at_loop_start) = 0)
    by reflexivity.
  split; [exact H1|]. split; [exact H2|].
  exact (proj1 (proj2
    (open_on_zero_keeps_loop_starts "+-[+]-" 256 at_loop_start H1 H2))).
Defined.

(** ** A complete run *)

(** C7: on a fresh engine under the default limit, [++++++++[>++++<-]>.]
    completes after 75 operations with 32 in the cell at address 1 and a
    single space written. *)
Theorem multiply_eight_by_four k input :
  let r := execute (75 + k) "++++++++[>++++<-]>." default_cell_limit input in
  r.1 = Completed /\
  cell (stack r.2) 1 = 32 /\ pointer r.2 = 1 /\
  cout r.2 = " "%string /\ cerr r.2 = EmptyString /\
  loop_start_indices r.2 = [] /\ operations r.2 = 75.
Proof.
  cbv zeta. unfold execute.
  pose (r := main_loop 75 "++++++++[>++++<-]>." default_cell_limit
               (initial input)).
  assert (H : r.1 = Completed /\
              cell (stack r.2) 1 = 32 /\ pointer r.2 = 1 /\
              cout r.2 = " "%string /\ cerr r.2 = EmptyString /\
              loop_start_indices r.2 = [] /\ operations r.2 = 75).
  { repeat split; vm_compute; reflexivity. }
  destruct r as [o m] eqn:E. cbn [fst snd] in H. destruct H as [-> H].
  rewrite (main_loop_more_fuel _ k _ _ _ _ _ E) by discriminate.
  split; [reflexivity | exact H].
Qed.

(** ** Cell arithmetic *)

Lemma wrap_char_range z : -128 <= wrap_char z <= 127.
Proof. unfold wrap_char. pose proof (Z.mod_pos_bound (z + 128) 256). lia. Qed.

Lemma wrap_char_idem a b : wrap_char (wrap_char a + b) = wrap_char (a + b).
Proof.
  unfold wrap_char. f_equal.
  replace ((a + 128) mod 256 - 128 + b + 128) with ((a + 128) mod 256 + b)
    by lia.
  rewrite Zplus_mod_idemp_l. f_equal. lia.
Qed.

Lemma wrap_char_mod z : wrap_char z mod 256 = z mod 256.
Proof.
  unfold wrap_char. rewrite Zminus_mod_idemp_l. f_equal. lia.
Qed.

Lemma cell_insert (s : gmap Z Z) p v : cell (<[p := v]> s) p = v.
Proof. unfold cell. rewrite lookup_insert_eq. reflexivity. Qed.

Lemma append_snoc (pre : string) c (suf : string) :
  ((pre ++ String c EmptyString) ++ suf)%string = (pre ++ String c suf)%string.
Proof.
  induction pre as [|a pre IH]; [reflexivity|].
  exact (f_equal (String a) IH).
Qed.

Lemma string_at_append pre c suf :
  string_at (pre ++ String c suf) (size pre) = Some c.
Proof.
  unfold string_at, size. rewrite length_append. cbn [String.length].
  replace (0 <=? Z.of_nat (String.length pre)) with true
    by (symmetry; apply Z.leb_le; lia).
  replace (Z.of_nat (String.length pre) <?
           Z.of_nat (String.length pre + S (String.length suf))) with true
    by (symmetry; apply Z.ltb_lt; lia).
  cbn [andb]. rewrite Nat2Z.id. apply get_append_here.
Qed.

Lemma loop_guard_append pre c suf m :
  index m = size pre -> loop_guard (pre ++ String c suf) m = true.
Proof.
  intros Hi. unfold loop_guard, size in *. rewrite Hi, length_append.
  cbn [String.length]. apply andb_true_iff.
  split; [apply Z.leb_le | apply Z.ltb_lt]; lia.
Qed.

Lemma loop_guard_end pre m :
  index m = size pre -> loop_guard (pre ++ EmptyString) m = false.
Proof.
  intros Hi. unfold loop_guard, size in *. rewrite Hi, length_append.
  cbn [String.length]. apply andb_false_iff. right. apply Z.ltb_ge. lia.
Qed.

(** A stretch of [+] and [-] met at the index [size pre] runs to the end of
    the string and changes the cell under the cursor by its net count. *)
Lemma plus_minus_stretch suf : forall pre cell_limit m,
  only_plus_minus suf = true ->
  index m = size pre ->
  span m <= cell_limit ->
  -128 <= cell (stack m) (pointer m) <= 127 ->
  exists m',
    main_loop (String.length suf) (pre ++ suf) cell_limit m = (Completed, m') /\
    pointer m' = pointer m /\
    cell (stack m') (pointer m) =
      wrap_char (cell (stack m) (pointer m) + net suf) /\
    loop_start_indices m' = loop_start_indices m /\
    cout m' = cout m.
Proof.
  induction suf as [|c suf IH]; intros pre cell_limit m Hpm Hi Hlim Hchar.
  - exists m. cbn [String.length main_loop net].
    rewrite (loop_guard_end _ _ Hi). repeat split.
    rewrite Z.add_0_r. unfold wrap_char. rewrite Z.mod_small; lia.
  - cbn [only_plus_minus] in Hpm. apply andb_true_iff in Hpm as [Hc Hpm].
    cbn [String.length main_loop]. rewrite (loop_guard_append _ _ _ _ Hi).
    pose proof (string_at_append pre c suf) as Hat. rewrite <- Hi in Hat.
    set (m0 := set_operations (operations m + 1) m).
    assert (Hstep : exists v,
      v = wrap_char (cell (stack m) (pointer m) + net (String c EmptyString))
      /\ iteration (pre ++ String c suf) cell_limit m =
         Next (set_index (index m + 1)
                 (set_stack (<[pointer m := v]> (stack m)) m0))).
    { apply orb_true_iff in Hc as [Hc|Hc]; apply Ascii.eqb_eq in Hc;
        subst c; eexists; (split; [reflexivity|]); unfold iteration.
      - rewrite (body_plus _ _ _ Hat Hlim). cbn [net Ascii.eqb Bool.eqb].
        rewrite Z.add_0_r. reflexivity.
      - rewrite (body_minus _ _ _ Hat Hlim). cbn [net Ascii.eqb Bool.eqb].
        rewrite Z.add_0_r. reflexivity. }
    destruct Hstep as (v & Hv & ->).
    set (m1 := set_index _ _).
    destruct (IH (pre ++ String c EmptyString)%string cell_limit m1 Hpm)
      as (m' & Hrun & Hp & Hcell & Hl & Ho).
    + subst m1. cbn [index set_index]. unfold size in *.
      rewrite length_append. cbn [String.length]. lia.
    + exact Hlim.
    + subst m1. cbn. rewrite cell_insert, Hv. apply wrap_char_range.
    + rewrite append_snoc in Hrun. exists m'. split; [exact Hrun|].
      subst m1. cbn in Hp, Hcell, Hl, Ho. rewrite cell_insert in Hcell.
      repeat split; try assumption.
      rewrite Hcell, Hv, wrap_char_idem. f_equal. cbn [net].
      destruct (Ascii.eqb c "+"); [lia|]. destruct (Ascii.eqb c "-"); lia.
Qed.

(** C8: a program of [+] and [-] only, started anywhere on the tape with the
    bound respected, completes with the cursor where it was, and the cell
    under it holds the value it held plus the net count, wrapped to a signed
    byte: the two agree modulo 256. On a zero cell this is the net count
    modulo 256. *)
Theorem plus_minus_wraps instructions cell_limit m fuel :
  only_plus_minus instructions = true ->
  index m = 0 ->
  span m <= cell_limit ->
  -128 <= cell (stack m) (pointer m) <= 127 ->
  (String.length instructions <= fuel)%nat ->
  exists m',
    main_loop fuel instructions cell_limit m = (Completed, m') /\
    pointer m' = pointer m /\
    cell (stack m') (pointer m) =
      wrap_char (cell (stack m) (pointer m) + net instructions) /\
    -128 <= cell (stack m') (pointer m) <= 127 /\
    cell (stack m') (pointer m) mod 256 =
      (cell (stack m) (pointer m) + net instructions) mod 256.
Proof.
  intros Hpm Hi Hlim Hchar Hfuel.
  destruct (plus_minus_stretch instructions EmptyString cell_limit m
              Hpm Hi Hlim Hchar) as (m' & Hrun & Hp & Hcell & _ & _).
  change (EmptyString ++ instructions)%string with instructions in Hrun.
  exists m'. split.
  - set (n := String.length instructions) in *.
    replace fuel with (n + (fuel - n))%nat by lia.
    apply main_loop_more_fuel; [exact Hrun | discriminate].
  - split; [exact Hp|]. split; [exact Hcell|]. rewrite Hcell.
    split; [apply wrap_char_range | apply wrap_char_mod].
Qed.

(** On a fresh engine: the cell at address 0 ends at the net count, wrapped. *)
Lemma plus_minus_on_fresh_engine instructions (limit : positive) input :
  only_plus_minus instructions = true ->
  exists m',
    execute (String.length instructions) instructions (Z.pos limit) input =
      (Completed, m') /\
    pointer m' = 0 /\
    cell (stack m') 0 = wrap_char (net instructions).
Proof.
  intros Hpm.
  destruct (plus_minus_stretch instructions EmptyString (Z.pos limit)
              (initial input) Hpm) as (m' & Hrun & Hp & Hcell & _ & _);
    [reflexivity | vm_compute; discriminate
    | vm_compute; split; discriminate |].
  exists m'. split; [exact Hrun|]. split; [exact Hp | exact Hcell].
Qed.

Lemma plus_minus_wraps_witness :
  only_plus_minus "++-+" = true /\
  index at_greatest_char = 0 /\
  span at_greatest_char <= 256 /\
  -128 <= cell (stack at_greatest_char) (pointer at_greatest_char) <= 127 /\
  (String.length "++-+" <= 4)%nat /\
  exists m',
    main_loop 4 "++-+" 256 at_greatest_char = (Completed, m') /\
    pointer m' = 5 /\
    cell (stack m') 5 = -127 /\
    -128 <= cell (stack m') 5 <= 127 /\
    cell (stack m') 5 mod 256 = (127 + 2) mod 256.
Proof.
  assert (H1 : only_plus_minus "++-+" = true) by reflexivity.
  assert (H2 : index at_greatest_char = 0) by reflexivity.
  assert (H3 : span at_greatest_char <= 256) by (vm_compute; discriminate).
  assert (H4 : -128 <= cell (stack at_greatest_char)
                           (pointer at_greatest_char) <= 127)
    by (vm_compute; split; discriminate).
  assert (H5 : (String.length "++-+" <= 4)%nat) by (simpl; lia).
  split; [exact H1|]. split; [exact H2|]. split; [exact H3|].
  split; [exact H4|]. split; [exact H5|].
  exact (plus_minus_wraps "++-+" 256 at_greatest_char 4 H1 H2 H3 H4 H5).
Defined.

(** ** The operations counter *)

Lemma string_at_live instructions m c :
  string_at instructions (index m) = Some c -> c <> Ascii.zero ->
  loop_guard instructions m = true.
Proof.
  unfold string_at, loop_guard.
  destruct ((0 <=? index m) && (index m <? size instructions)); [reflexivity|].
  destruct (index m =? size instructions); [|discriminate].
  intros [= <-] Hc. contradiction.
Qed.

Lemma iterate_snoc n instructions cell_limit : forall m0 m m',
  iterate n instructions cell_limit m0 = Some m ->
  loop_guard instructions m = true ->
  iteration instructions cell_limit m = Next m' ->
  iterate (S n) instructions cell_limit m0 = Some m'.
Proof.
  induction n as [|n IH]; intros m0 m m' Hn Hg Hit.
  - cbn [iterate] in Hn. injection Hn as <-. cbn [iterate].
    rewrite Hg, Hit. reflexivity.
  - cbn [iterate] in Hn. change (iterate (S (S n)) instructions cell_limit m0)
      with (if loop_guard instructions m0
            then match iteration instructions cell_limit m0 with
                 | Next m1 => iterate (S n) instructions cell_limit m1
                 | Halt _ _ => None
                 end
            else None).
    destruct (loop_guard instructions m0); [|discriminate].
    destruct (iteration instructions cell_limit m0) as [m1|o m1];
      [|discriminate].
    exact (IH _ _ _ Hn Hg Hit).
Qed.

Lemma iteration_operations instructions cell_limit m m' :
  loop_guard instructions m = true ->
  iteration instructions cell_limit m = Next m' ->
  operations m' = operations m + 1.
Proof.
  intros Hg. destruct (string_at_guard _ _ Hg) as [c Hc].
  pose proof (body_operations instructions cell_limit m c Hc) as Hops.
  unfold iteration.
  destruct (body instructions cell_limit m) as [m1|o m1]; [|discriminate].
  intros [= <-]. exact Hops.
Qed.

(** The counter holds the number of iterations of the main loop. *)
Lemma iterate_operations n instructions cell_limit : forall m m',
  iterate n instructions cell_limit m = Some m' ->
  operations m' = operations m + Z.of_nat n.
Proof.
  induction n as [|n IH]; intros m m'; cbn [iterate].
  - intros [= <-]. lia.
  - destruct (loop_guard instructions m) eqn:Hg; [|discriminate].
    destruct (iteration instructions cell_limit m) as [m1|o m1] eqn:Hit;
      [|discriminate].
    intros Hn. rewrite (IH _ _ Hn), (iteration_operations _ _ _ _ Hg Hit).
    lia.
Qed.

(** C10: in a run from the initial state that has made fewer than
    [INT_MAX] iterations, so that the [int] counter has not overflowed, the
    counter holds the number of iterations of the main loop. When the next
    iteration takes up a [[] with a zero cell under the cursor and the scan
    stops at [j], the iteration ends at index [j + 1] with one operation
    counted for the [[] and none for the [j - index] instructions passed
    over, the counter still being an [int]; the bound was checked once, for
    the [[], and the extrema are as they were. *)
Theorem skipped_instructions_not_counted
    instructions cell_limit input n m j :
  Z.of_nat n < INT_MAX ->
  iterate n instructions cell_limit (initial input) = Some m ->
  string_at instructions (index m) = Some "["%char ->
  span m <= cell_limit ->
  cell (stack m) (pointer m) = 0 ->
  skip_scan (scan_fuel instructions) instructions (index m) 1 = Found j ->
  operations m = Z.of_nat n /\
  index m < j /\
  iterate (S n) instructions cell_limit (initial input) =
    Some (set_index (j + 1)
            (set_stack (touch (stack m) (pointer m))
               (set_operations (Z.of_nat n + 1) m))) /\
  0 <= operations m /\ operations m + 1 <= INT_MAX.
Proof.
  intros Hint Hn Hc Hlim Hz Hscan.
  pose proof (iterate_operations _ _ _ _ _ Hn) as Hops. cbn in Hops.
  split; [exact Hops|]. split; [|split].
  - apply (skip_scan_forward _ _ _ _ _ Hscan). discriminate.
  - apply (iterate_snoc _ _ _ _ _ _ Hn).
    + apply (string_at_live _ _ _ Hc). discriminate.
    + unfold iteration. rewrite (body_open_zero _ _ _ Hc Hlim Hz), Hscan.
      cbv zeta. rewrite Hops. reflexivity.
  - rewrite Hops. lia.
Qed.

Lemma skipped_instructions_not_counted_witness :
  Z.of_nat 2 < INT_MAX /\
  iterate 2 "+-[>>+<<]." 256 (initial "") = Some before_skip /\
  string_at "+-[>>+<<]." (index before_skip) = Some "["%char /\
  span before_skip <= 256 /\
  cell (stack before_skip) (pointer before_skip) = 0 /\
  skip_scan (scan_fuel "+-[>>+<<].") "+-[>>+<<]." (index before_skip) 1 =
    Found 8 /\
  operations before_skip = 2 /\
  index before_skip < 8 /\
  iterate 3 "+-[>>+<<]." 256 (initial "") =
    Some (Machine (<[0 := 0]> ∅) 0 [] 0 0 3 0 0 9 "" "" "").
Proof.
  assert (H0 : Z.of_nat 2 < INT_MAX) by (vm_compute; reflexivity).
  assert (H1 : iterate 2 "+-[>>+<<]." 256 (initial "") = Some before_skip)
    by (vm_compute; reflexivity).
  assert (H2 : string_at "+-[>>+<<]." (index before_skip) = Some "["%char)
    by reflexivity.
  assert (H3 : span before_skip <= 256) by (vm_compute; discriminate).
  assert (H4 : cell (stack before_skip) (pointer before_skip) = 0)
    by reflexivity.
  assert (H5 : skip_scan (scan_fuel "+-[>>+<<].") "+-[>>+<<]."
                 (index before_skip) 1 = Found 8) by reflexivity.
  split; [exact H0|].
  split; [exact H1|]. split; [exact H2|]. split; [exact H3|].
  split; [exact H4|]. split; [exact H5|].
  destruct (skipped_instructions_not_counted "+-[>>+<<]." 256 "" 2
              before_skip 8 H0 H1 H2 H3 H4 H5) as (Ho & Hj & Hnext & _).
  split; [exact Ho|]. split; [exact Hj | exact Hnext].
Defined.

(** * Further properties *)

(** ** Counting operators *)

Lemma count_operators_range_aux instructions :
  0 <= count_operators instructions <= size instructions.
Proof.
  induction instructions as [|c rest IH].
  - unfold count_operators, size. simpl. lia.
  - rewrite count_operators_cons. unfold size in *. cbn [String.length].
    destruct (find operators c); lia.
Qed.

(** The count of a concatenation is the sum of the counts: the count of a
    program does not depend on how it is cut into pieces. *)
Theorem count_operators_append (s1 s2 : string) :
  count_operators (s1 ++ s2) = count_operators s1 + count_operators s2.
Proof.
  induction s1 as [|c s1 IH].
  - reflexivity.
  - change (String c s1 ++ s2)%string with (String c (s1 ++ s2)%string).
    rewrite !count_operators_cons, IH. lia.
Qed.

(** The count lies between 0 and the length of the sequence, and reaches the
    length exactly when every character is one of [+ - . / < > [ ]]. *)
Theorem count_operators_bounds (instructions : string) :
  0 <= count_operators instructions <= size instructions /\
  (count_operators instructions = size instructions <->
   all_chars (find operators) instructions = true).
Proof.
  split; [apply count_operators_range_aux|].
  induction instructions as [|c rest IH].
  - split; reflexivity.
  - rewrite count_operators_cons. cbn [all_chars].
    pose proof (count_operators_range_aux rest) as Hr.
    unfold size in *. cbn [String.length].
    destruct (find operators c); cbn [andb].
    + rewrite <- IH. lia.
    + split; [lia | discriminate].
Qed.

(** ** Console input *)

Lemma getline_complete line rest :
  all_chars (fun c => negb (Ascii.eqb c newline)) line = true ->
  getline (line ++ String newline rest) = Some (line, rest).
Proof.
  induction line as [|c line IH]; intros Hl.
  - reflexivity.
  - cbn [all_chars] in Hl. apply andb_true_iff in Hl as [Hc Hl].
    change (String c line ++ String newline rest)%string
      with (String c (line ++ String newline rest)%string).
    cbn [getline]. apply negb_true_iff in Hc. rewrite Hc, (IH Hl).
    reflexivity.
Qed.

Lemma getline_sound stream : forall line rest,
  getline stream = Some (line, rest) ->
  stream = (line ++ String newline rest)%string /\
  all_chars (fun c => negb (Ascii.eqb c newline)) line = true.
Proof.
  induction stream as [|c stream IH]; intros line rest; cbn [getline].
  - discriminate.
  - destruct (Ascii.eqb c newline) eqn:Hc.
    + intros [= <- <-]. apply Ascii.eqb_eq in Hc. subst c. split; reflexivity.
    + destruct (getline stream) as [[l r]|]; [|discriminate].
      intros [= <- <-]. destruct (IH l r eq_refl) as [-> Hl]. split.
      * reflexivity.
      * cbn [all_chars]. rewrite Hc, Hl. reflexivity.
Qed.

Lemma newline_found line rest :
  all_chars (fun c => negb (Ascii.eqb c newline))
    (line ++ String newline rest) = false.
Proof.
  induction line as [|a l IH]; [reflexivity|].
  change (String a l ++ String newline rest)%string
    with (String a (l ++ String newline rest)%string).
  cbn [all_chars]. rewrite IH. apply andb_false_r.
Qed.

Lemma get_input_line m c line rest :
  all_chars (fun c => negb (Ascii.eqb c newline)) (String c line) = true ->
  cin m = (String c line ++ String newline rest)%string ->
  get_input m =
  (set_cin rest (set_cout (cout m ++ prompt)%string m), Some c).
Proof.
  intros Hl Hin. unfold get_input. cbv zeta.
  change (cin (set_cout (cout m ++ prompt)%string m)) with (cin m).
  rewrite Hin, (getline_complete _ _ Hl). reflexivity.
Qed.

(** [get_input] on a stream that starts with a non-empty line ended by a
    newline: the first character of the line is returned, the whole line and
    its newline are consumed, the prompt is written, and nothing goes to the
    error stream. *)
Theorem get_input_first_character m c line rest :
  all_chars (fun c => negb (Ascii.eqb c newline)) (String c line) = true ->
  cin m = (String c line ++ String newline rest)%string ->
  get_input m =
  (set_cin rest (set_cout (cout m ++ prompt)%string m), Some c).
Proof. apply get_input_line. Qed.

Lemma get_input_first_character_witness :
  all_chars (fun c => negb (Ascii.eqb c newline)) "A1" = true /\
  cin (initial (String "A" (String "1" (String newline "B")))) =
    ("A1" ++ String newline "B")%string /\
  get_input (initial (String "A" (String "1" (String newline "B")))) =
    (Machine ∅ 0 [] 0 0 0 0 0 0 "B" prompt "", Some "A"%char).
Proof.
  assert (H1 : all_chars (fun c => negb (Ascii.eqb c newline)) "A1" = true)
    by reflexivity.
  assert (H2 : cin (initial (String "A" (String "1" (String newline "B")))) =
               ("A1" ++ String newline "B")%string) by reflexivity.
  split; [exact H1|]. split; [exact H2|].
  exact (get_input_first_character _ "A"%char "1" "B" H1 H2).
Defined.

(** [get_input] fails exactly when the stream holds no newline (the read
    leaves the stream not good; no message) or starts with one (an empty
    line; "Input error" on the error stream). *)
Theorem get_input_failure m :
  (get_input m).2 = None <->
  all_chars (fun c => negb (Ascii.eqb c newline)) (cin m) = true \/
  exists rest, cin m = String newline rest.
Proof.
  unfold get_input. cbv zeta.
  change (cin (set_cout (cout m ++ prompt)%string m)) with (cin m).
  destruct (getline (cin m)) as [[line rest]|] eqn:Hg.
  - destruct (getline_sound _ _ _ Hg) as [Hs Hl].
    destruct line as [|c line]; cbn [snd]; split.
    + intros _. right. exists rest. exact Hs.
    + reflexivity.
    + discriminate.
    + intros [Hall|[r Hr]].
      * rewrite Hs, newline_found in Hall. discriminate.
      * rewrite Hs in Hr.
        change (String c line ++ String newline rest)%string
          with (String c (line ++ String newline rest)%string) in Hr.
        injection Hr as -> _. cbn [all_chars] in Hl.
        rewrite Ascii.eqb_refl in Hl. discriminate.
  - cbn [snd]. split; [|reflexivity]. intros _. left.
    clear -Hg. induction (cin m) as [|a l IH]; [reflexivity|].
    cbn [getline] in Hg. cbn [all_chars].
    destruct (Ascii.eqb a newline); [discriminate|]. cbn.
    apply IH. destruct (getline l) as [[? ?]|]; [discriminate | reflexivity].
Qed.

(** ** The remaining instructions *)

Lemma touch_cell (s : gmap Z Z) p q : cell (touch s p) q = cell s q.
Proof.
  unfold touch, cell. destruct (s !! p) eqn:Hp; [reflexivity|].
  destruct (decide (p = q)) as [<-|Hne].
  - rewrite lookup_insert_eq, Hp. reflexivity.
  - rewrite lookup_insert_ne by exact Hne. reflexivity.
Qed.




Lemma body_dot instructions cell_limit m :
  string_at instructions (index m) = Some "."%char ->
  span m <= cell_limit ->
  body instructions cell_limit m =
  let v := cell (stack m) (pointer m) in
  let output :=
    if (v <? 32) || (v >? 126) then "?"%char else ascii_of_char v in
  Next (set_cout (cout m ++ String output EmptyString)%string
          (set_stack (touch (stack m) (pointer m))
             (set_operations (operations m + 1) m))).
Proof. intros Hc Hlim. enter_body Hc Hlim. reflexivity. Qed.

Lemma body_comma instructions cell_limit m :
  string_at instructions (index m) = Some ","%char ->
  span m <= cell_limit ->
  body instructions cell_limit m =
  match get_input (set_operations (operations m + 1) m) with
  | (m1, Some c) =>
      Next (set_stack (<[pointer m1 := char_of_ascii c]> (stack m1)) m1)
  | (m1, None) => Halt (Failed InputError) m1
  end.
Proof. intros Hc Hlim. enter_body Hc Hlim. reflexivity. Qed.



(** ** Invariants of a run *)

Lemma iterate_invariant (P : machine -> Prop) instructions cell_limit :
  (forall m m', P m -> loop_guard instructions m = true ->
     iteration instructions cell_limit m = Next m' -> P m') ->
  forall n m m', P m -> iterate n instructions cell_limit m = Some m' -> P m'.
Proof.
  intros Hstep. induction n as [|n IH]; intros m m' HP; cbn [iterate].
  - intros [= <-]. exact HP.
  - destruct (loop_guard instructions m) eqn:Hg; [|discriminate].
    destruct (iteration instructions cell_limit m) as [m1|o m1] eqn:Hit;
      [|discriminate].
    apply IH. exact (Hstep _ _ HP Hg Hit).
Qed.

Lemma iteration_body instructions cell_limit m m' :
  iteration instructions cell_limit m = Next m' ->
  exists m1, body instructions cell_limit m = Next m1 /\
             m' = set_index (index m1 + 1) m1.
Proof.
  unfold iteration.
  destruct (body instructions cell_limit m) as [m1|o m1]; [|discriminate].
  intros [= <-]. eauto.
Qed.

Lemma chars_insert (s : gmap Z Z) q x :
  tape_of_chars s -> is_char x -> tape_of_chars (<[q := x]> s).
Proof.
  intros Hs Hx p v. rewrite lookup_insert. case_decide.
  - intros [= <-]. exact Hx.
  - apply Hs.
Qed.

Lemma chars_touch (s : gmap Z Z) q :
  tape_of_chars s -> tape_of_chars (touch s q).
Proof.
  intros Hs. unfold touch. destruct (s !! q); [exact Hs|].
  apply chars_insert; [exact Hs | unfold is_char; lia].
Qed.

Lemma body_keeps_chars instructions cell_limit m m1 :
  tape_of_chars (stack m) ->
  body instructions cell_limit m = Next m1 ->
  tape_of_chars (stack m1).
Proof.
  intros Hm Hb.
  pose proof (get_input_frame (set_operations (operations m + 1) m))
    as (Hst & _).
  body_leaves Hb;
    cbn [stack pointer set_stack set_operations set_pointer
         set_index set_cout set_loop_start_indices set_lowest_cell
         set_greatest_cell set_left_shifts set_right_shifts fst] in *;
    try exact Hm;
    try (apply chars_touch; exact Hm);
    try (apply chars_insert; [exact Hm | apply wrap_char_range]).
  apply chars_insert; [rewrite Hst; exact Hm | apply wrap_char_range].
Qed.

Lemma get_input_counters m :
  left_shifts (get_input m).1 = left_shifts m /\
  right_shifts (get_input m).1 = right_shifts m.
Proof.
  unfold get_input. cbv zeta.
  destruct (getline _) as [[[|c input] rest]|]; split; reflexivity.
Qed.

Lemma initial_chars input : tape_of_chars (stack (initial input)).
Proof. intros p v. cbn. rewrite lookup_empty. discriminate. Qed.

Lemma cell_of_chars (s : gmap Z Z) p : tape_of_chars s -> is_char (cell s p).
Proof.
  intros Hs. unfold cell. destruct (s !! p) as [v|] eqn:Hp.
  - exact (Hs _ _ Hp).
  - unfold is_char. cbn. lia.
Qed.

(** Cells stay within a signed byte: whatever the program and the input, the
    value read at any address of any state of a run lies in [-128, 127]. *)
Theorem cells_stay_chars instructions cell_limit input m p :
  reachable instructions cell_limit input m ->
  -128 <= cell (stack m) p <= 127.
Proof.
  intros [n Hn]. apply cell_of_chars.
  refine (iterate_invariant (fun m => tape_of_chars (stack m)) _ _ _
            n _ _ (initial_chars input) Hn).
  intros m0 m' HP _ Hit.
  destruct (iteration_body _ _ _ _ Hit) as (m1 & Hb & ->).
  exact (body_keeps_chars _ _ _ _ HP Hb).
Qed.

Lemma body_keeps_shifts instructions cell_limit m m1 :
  shifts_bound m ->
  body instructions cell_limit m = Next m1 ->
  shifts_bound m1 /\ span m <= span m1.
Proof.
  intros Hm Hb.
  pose proof (get_input_frame (set_operations (operations m + 1) m))
    as (_ & Hpt & _ & Hlo & Hgr & Hop & _).
  pose proof (get_input_counters (set_operations (operations m + 1) m))
    as (Hls & Hrs).
  unfold shifts_bound, span in *.
  body_leaves Hb;
    cbn [stack pointer set_stack set_operations set_pointer
         set_index set_cout set_loop_start_indices set_lowest_cell
         set_greatest_cell set_left_shifts set_right_shifts fst
         lowest_cell greatest_cell left_shifts right_shifts operations] in *;
    lia.
Qed.

(** The sum the check compares never decreases along a run: once the bound
    is exceeded it stays exceeded. *)
Theorem span_never_decreases instructions cell_limit input m k m' :
  reachable instructions cell_limit input m ->
  iterate k instructions cell_limit m = Some m' ->
  span m <= span m'.
Proof.
  intros [n Hn] Hk.
  assert (H : shifts_bound m).
  { refine (iterate_invariant shifts_bound _ _ _ n _ _ _ Hn).
    - intros m0 m2 HP _ Hit.
      destruct (iteration_body _ _ _ _ Hit) as (m1 & Hb & ->).
      exact (proj1 (body_keeps_shifts _ _ _ _ HP Hb)).
    - unfold shifts_bound. cbn. lia. }
  refine (proj2 (iterate_invariant
            (fun x => shifts_bound x /\ span m <= span x) _ _ _
            k m m' (conj H (Z.le_refl _)) Hk)).
  intros m0 m2 [HP Hs] _ Hit.
  destruct (iteration_body _ _ _ _ Hit) as (m1 & Hb & ->).
  destruct (body_keeps_shifts _ _ _ _ HP Hb) as [HP1 Hs1].
  split; [exact HP1|]. change (span (set_index (index m1 + 1) m1))
    with (span m1). lia.
Qed.

Lemma in_removelast (l : list Z) x : In x (removelast l) -> In x l.
Proof.
  induction l as [|a l IH]; [auto|]. cbn [removelast].
  destruct l as [|b l]; [intros []|].
  intros [->|H]; [left; reflexivity | right; exact (IH H)].
Qed.

(** Every index held in the loop-start buffer is the position of a [[] of
    the program: a repeat jump always lands just behind a loop start. *)
Theorem loop_starts_are_open_brackets instructions cell_limit input m i :
  reachable instructions cell_limit input m ->
  In i (loop_start_indices m) ->
  string_at instructions i = Some "["%char /\ 0 <= i < size instructions.
Proof.
  intros [n Hn] Hi.
  assert (H : forall j, In j (loop_start_indices m) ->
                        string_at instructions j = Some "["%char).
  { refine (iterate_invariant
              (fun x => forall j, In j (loop_start_indices x) ->
                                  string_at instructions j = Some "["%char)
              _ _ _ n _ _ _ Hn).
    - intros m0 m2 HP _ Hit.
      destruct (iteration_body _ _ _ _ Hit) as (m1 & Hb & ->).
      change (loop_start_indices (set_index (index m1 + 1) m1))
        with (loop_start_indices m1).
      pose proof (get_input_frame (set_operations (operations m0 + 1) m0))
        as (_ & _ & Hl & _).
      body_leaves Hb;
        cbn [loop_start_indices set_stack set_operations set_pointer
             set_index set_cout set_loop_start_indices set_lowest_cell
             set_greatest_cell set_left_shifts set_right_shifts fst index]
          in *;
        try exact HP.
      + rewrite Hl. exact HP.
      + intros j Hj. unfold vec_push_back in Hj.
        apply in_app_or in Hj as [Hj|[<-|[]]]; [exact (HP _ Hj)|].
        match goal with
        | E : Ascii.eqb _ "[" = true |- _ =>
            apply Ascii.eqb_eq in E; subst; assumption
        end.
      + intros j Hj. apply HP.
        match goal with
        | E : vec_pop_back ?l = Some _ |- _ =>
            unfold vec_pop_back in E; destruct l as [|z l0];
            [discriminate E | injection E as <-];
            exact (in_removelast (z :: l0) j Hj)
        end.
    - intros j []. }
  pose proof (H _ Hi) as Hat. split; [exact Hat|].
  unfold string_at in Hat.
  destruct ((0 <=? i) && (i <? size instructions)) eqn:Hr.
  - apply andb_true_iff in Hr as [H0 H1].
    apply Z.leb_le in H0. apply Z.ltb_lt in H1. lia.
  - destruct (i =? size instructions); discriminate.
Qed.

(** ** Output *)

Lemma printable_ascii_of_char v :
  32 <= v <= 126 ->
  printable (ascii_of_char v) = true /\
  Z.of_nat (nat_of_ascii (ascii_of_char v)) = v.
Proof.
  intros Hv. unfold printable, ascii_of_char.
  rewrite nat_ascii_embedding by lia. split; [|lia].
  apply andb_true_iff. split; apply Nat.leb_le; lia.
Qed.

(** [.] writes exactly one character, always a printable one: the byte of
    the cell when it lies between [' '] and ['~'], a question mark
    otherwise. No cell value changes, and the run goes on with the next
    instruction. *)
Theorem dot_writes_one_printable instructions cell_limit m :
  string_at instructions (index m) = Some "."%char ->
  span m <= cell_limit ->
  exists ch m',
    iteration instructions cell_limit m = Next m' /\
    cout m' = (cout m ++ String ch EmptyString)%string /\
    printable ch = true /\
    (if (32 <=? cell (stack m) (pointer m))
        && (cell (stack m) (pointer m) <=? 126)
     then Z.of_nat (nat_of_ascii ch) = cell (stack m) (pointer m)
     else ch = "?"%char) /\
    (forall q, cell (stack m') q = cell (stack m) q) /\
    index m' = index m + 1 /\ pointer m' = pointer m.
Proof.
  intros Hc Hlim. unfold iteration. rewrite (body_dot _ _ _ Hc Hlim).
  cbv zeta. set (v := cell (stack m) (pointer m)).
  eexists. eexists. split; [reflexivity|].
  cbn [cout set_cout set_index set_stack set_operations stack index pointer].
  split; [reflexivity|].
  destruct (32 <=? v) eqn:H32; destruct (v <=? 126) eqn:H126; cbn [andb].
  - apply Z.leb_le in H32. apply Z.leb_le in H126.
    replace (v <? 32) with false by (symmetry; apply Z.ltb_ge; lia).
    replace (v >? 126) with false
      by (symmetry; rewrite Z.gtb_ltb; apply Z.ltb_ge; lia).
    cbn [orb].
    destruct (printable_ascii_of_char v (conj H32 H126)) as [Hp Hn].
    repeat split; try assumption. intros q. apply touch_cell.
  - apply Z.leb_gt in H126.
    replace (v >? 126) with true
      by (symmetry; rewrite Z.gtb_ltb; apply Z.ltb_lt; lia).
    rewrite orb_true_r. repeat split. intros q. apply touch_cell.
  - apply Z.leb_gt in H32.
    replace (v <? 32) with true by (symmetry; apply Z.ltb_lt; lia).
    cbn [orb]. repeat split. intros q. apply touch_cell.
  - apply Z.leb_gt in H32.
    replace (v <? 32) with true by (symmetry; apply Z.ltb_lt; lia).
    cbn [orb]. repeat split. intros q. apply touch_cell.
Qed.

(** ** Characters that are no instructions *)

Lemma size_cons c s : size (String c s) = size s + 1.
Proof. unfold size. cbn [String.length]. lia. Qed.

Lemma size_snoc pre c : size (pre ++ String c EmptyString) = size pre + 1.
Proof. unfold size. rewrite length_append. cbn [String.length]. lia. Qed.



(** ** The limit *)

(** Under a negative limit a program that is not empty fails on its first
    instruction with nothing executed. *)
Theorem negative_limit_refuses_all c rest cell_limit input fuel :
  cell_limit < 0 ->
  execute (S fuel) (String c rest) cell_limit input =
  (Failed ResourceLimitExceeded, tripped (initial input)).
Proof.
  intros Hneg. unfold execute. cbn [main_loop].
  assert (Hg : loop_guard (String c rest) (initial input) = true).
  { unfold loop_guard. cbn [index initial]. rewrite size_cons.
    apply andb_true_iff. split; [reflexivity|]. apply Z.ltb_lt.
    unfold size. lia. }
  rewrite Hg, iteration_tripped; [reflexivity | exact Hg |].
  unfold span. cbn. lia.
Qed.

Lemma body_no_left instructions cell_limit m c :
  string_at instructions (index m) = Some c ->
  no_left c = true ->
  span m <= cell_limit ->
  exists m1,
    body instructions cell_limit m = Next m1 /\
    index m1 = index m /\
    operations m1 = operations m + 1 /\
    pointer m1 = pointer m + (if Ascii.eqb c ">" then 1 else 0) /\
    greatest_cell m1 = greatest_cell m /\
    lowest_cell m1 =
      (if Ascii.eqb c ">" then Z.min (pointer m + 1) (lowest_cell m)
       else lowest_cell m).
Proof.
  intros Hc Hno Hlim. unfold no_left in Hno.
  apply andb_true_iff in Hno as [Hno H4].
  apply andb_true_iff in Hno as [Hno H3].
  apply andb_true_iff in Hno as [H1 H2].
  apply negb_true_iff in H1, H2, H3, H4.
  unfold body. rewrite Hc.
  change (span (set_operations (operations m + 1) m)) with (span m).
  destruct (span m >? cell_limit) eqn:E;
    [rewrite Z.gtb_ltb in E; apply Z.ltb_lt in E; lia|].
  cbv zeta. rewrite H1, H2, H3, H4.
  destruct (Ascii.eqb c "+") eqn:Ep.
  { apply Ascii.eqb_eq in Ep. subst c. eexists. split; [reflexivity|].
    cbn. repeat split; lia. }
  destruct (Ascii.eqb c "-") eqn:Em.
  { apply Ascii.eqb_eq in Em. subst c. eexists. split; [reflexivity|].
    cbn. repeat split; lia. }
  destruct (Ascii.eqb c ">") eqn:Er.
  { eexists. split; [reflexivity|]. cbn. repeat split; lia. }
  destruct (Ascii.eqb c ".") eqn:Ed.
  { eexists. split; [reflexivity|]. cbn. repeat split; lia. }
  eexists. split; [reflexivity|]. cbn. repeat split; lia.
Qed.

Lemma no_left_stretch suf : forall pre cell_limit m,
  all_chars no_left suf = true ->
  index m = size pre ->
  0 <= cell_limit ->
  lowest_cell m = 0 -> greatest_cell m = 0 -> 0 <= pointer m ->
  exists m',
    main_loop (String.length suf) (pre ++ suf) cell_limit m = (Completed, m') /\
    lowest_cell m' = 0 /\ greatest_cell m' = 0 /\
    pointer m' = pointer m + count_char ">" suf /\
    operations m' = operations m + size suf.
Proof.
  induction suf as [|c suf IH]; intros pre cell_limit m Hall Hi Hlim Hlo Hgr Hp.
  - exists m. cbn [String.length main_loop count_char].
    rewrite (loop_guard_end _ _ Hi). unfold size. cbn.
    repeat split; try assumption; lia.
  - cbn [all_chars] in Hall. apply andb_true_iff in Hall as [Hc Hall].
    cbn [String.length main_loop]. rewrite (loop_guard_append _ _ _ _ Hi).
    pose proof (string_at_append pre c suf) as Hat. rewrite <- Hi in Hat.
    assert (Hspan : span m <= cell_limit).
    { unfold span. rewrite Hlo, Hgr. cbn. exact Hlim. }
    destruct (body_no_left _ _ _ _ Hat Hc Hspan)
      as (m1 & Hb & Hi1 & Ho1 & Hp1 & Hg1 & Hl1).
    unfold iteration. rewrite Hb. rewrite <- append_snoc.
    destruct (IH (pre ++ String c EmptyString)%string cell_limit
                (set_index (index m1 + 1) m1) Hall)
      as (m' & Hrun & Hlo' & Hgr' & Hp' & Ho').
    + cbn. rewrite size_snoc. lia.
    + exact Hlim.
    + cbn. rewrite Hl1, Hlo. destruct (Ascii.eqb c ">"); lia.
    + cbn. rewrite Hg1. exact Hgr.
    + cbn. rewrite Hp1. destruct (Ascii.eqb c ">"); lia.
    + exists m'. split; [exact Hrun|]. cbn in Hp', Ho'.
      rewrite size_cons. cbn [count_char].
      repeat split; try assumption.
      * rewrite Hp', Hp1. lia.
      * rewrite Ho', Ho1. lia.
Qed.

(** A program without [<], brackets and [,] never trips the limit, however
    far right the cursor goes: on a fresh engine under any limit that is not
    negative it completes with the cursor at the number of its [>] and both
    extrema still at 0. *)
Theorem rightward_run_never_trips instructions cell_limit input :
  all_chars no_left instructions = true ->
  0 <= cell_limit ->
  exists m',
    execute (String.length instructions) instructions cell_limit input =
      (Completed, m') /\
    pointer m' = count_char ">" instructions /\
    lowest_cell m' = 0 /\ greatest_cell m' = 0 /\ span m' = 0 /\
    operations m' = size instructions.
Proof.
  intros Hall Hlim.
  destruct (no_left_stretch instructions EmptyString cell_limit
              (initial input) Hall)
    as (m' & Hrun & Hlo & Hgr & Hp & Ho); try reflexivity; try lia.
  exists m'. split; [exact Hrun|]. cbn in Hp, Ho.
  unfold span. rewrite Hlo, Hgr. repeat split; assumption.
Qed.

(** ** Input and output together *)

Lemma char_of_printable c :
  printable c = true -> char_of_ascii c = Z.of_nat (nat_of_ascii c).
Proof.
  unfold printable, char_of_ascii, wrap_char. intros H.
  apply andb_true_iff in H as [H1 H2].
  apply Nat.leb_le in H1, H2. rewrite Z.mod_small; lia.
Qed.

Lemma char_of_unprintable c :
  printable c = false ->
  (char_of_ascii c <? 32) || (char_of_ascii c >? 126) = true.
Proof.
  unfold printable, char_of_ascii, wrap_char. intros H.
  pose proof (nat_ascii_bounded c) as Hb.
  apply orb_true_iff. rewrite Z.gtb_ltb, !Z.ltb_lt.
  apply andb_false_iff in H as [H|H]; apply Nat.leb_gt in H.
  - left. rewrite Z.mod_small; lia.
  - destruct (Z.lt_ge_cases (Z.of_nat (nat_of_ascii c)) 128).
    + right. rewrite Z.mod_small; lia.
    + left.
      replace (Z.of_nat (nat_of_ascii c) + 128)
        with (Z.of_nat (nat_of_ascii c) - 128 + 1 * 256) by lia.
      rewrite Z.mod_add by lia. rewrite Z.mod_small; lia.
Qed.

(** On an input that starts with a non-empty line ended by a newline, [,.]
    echoes the first character of that line when it is printable, and writes
    a question mark for any other byte; the prompt precedes it, the rest of
    the line is dropped, and the run completes. *)
Theorem comma_dot_echoes c line rest cell_limit fuel :
  all_chars (fun c => negb (Ascii.eqb c newline)) (String c line) = true ->
  0 <= cell_limit ->
  exists m',
    execute (2 + fuel) ",." cell_limit
      (String c line ++ String newline rest) = (Completed, m') /\
    cout m' =
      (prompt ++
       String (if printable c then c else "?"%char) EmptyString)%string /\
    cell (stack m') 0 = char_of_ascii c /\
    cin m' = rest /\ cerr m' = EmptyString /\ operations m' = 2.
Proof.
  intros Hl Hlim. unfold execute.
  set (input := (String c line ++ String newline rest)%string).
  cbn [Nat.add main_loop].
  change (loop_guard ",." (initial input)) with true. cbv iota.
  unfold iteration at 1.
  rewrite (body_comma ",." cell_limit (initial input) eq_refl)
    by (unfold span; cbn; lia).
  rewrite (get_input_line
             (set_operations (operations (initial input) + 1) (initial input))
             c line rest Hl eq_refl).
  set (m1 := set_index _ _).
  change (loop_guard ",." m1) with true. cbv iota.
  unfold iteration.
  rewrite (body_dot ",." cell_limit m1 eq_refl) by (unfold span; cbn; lia).
  cbv beta iota zeta. set (m2 := set_index _ _).
  rewrite main_loop_done by reflexivity.
  exists m2. split; [reflexivity|].
  subst m2 m1.
  cbn [cout cin cerr operations stack pointer index set_index set_cout
       set_stack set_operations set_cin initial].
  rewrite cell_insert, touch_cell, cell_insert.
  repeat split.
  destruct (printable c) eqn:Hp.
  - rewrite (char_of_printable c Hp).
    unfold printable in Hp. apply andb_true_iff in Hp as [H1 H2].
    apply Nat.leb_le in H1, H2.
    replace (Z.of_nat (nat_of_ascii c) <? 32) with false
      by (symmetry; apply Z.ltb_ge; lia).
    replace (Z.of_nat (nat_of_ascii c) >? 126) with false
      by (symmetry; rewrite Z.gtb_ltb; apply Z.ltb_ge; lia).
    cbn [orb]. unfold ascii_of_char. rewrite Nat2Z.id, ascii_nat_embedding.
    reflexivity.
  - rewrite (char_of_unprintable c Hp). reflexivity.
Qed.

(** ** The forward scan *)

Lemma string_at_inside s i c :
  string_at s i = Some c -> c <> Ascii.zero -> 0 <= i < size s.
Proof.
  unfold string_at.
  destruct ((0 <=? i) && (i <? size s)) eqn:Hr.
  - intros _ _. apply andb_true_iff in Hr as [H0 H1].
    apply Z.leb_le in H0. apply Z.ltb_lt in H1. lia.
  - destruct (i =? size s); [|discriminate].
    intros [= <-] Hc. contradiction.
Qed.

Lemma string_at_none s i :
  string_at s i = None -> i < 0 \/ size s < i.
Proof.
  unfold string_at.
  destruct ((0 <=? i) && (i <? size s)) eqn:Hr.
  - apply andb_true_iff in Hr as [H0 H1].
    apply Z.leb_le in H0. apply Z.ltb_lt in H1.
    destruct (get_in_range s (Z.to_nat i)) as [c ->]; [|discriminate].
    unfold size in H1. lia.
  - destruct (i =? size s) eqn:He; [discriminate|].
    apply Z.eqb_neq in He. apply andb_false_iff in Hr as [H|H].
    + apply Z.leb_gt in H. lia.
    + apply Z.ltb_ge in H. lia.
Qed.

Lemma skip_scan_step fuel s i d c :
  d <> 0 -> string_at s (i + 1) = Some c ->
  skip_scan (S fuel) s i d =
  skip_scan fuel s (i + 1)
    (if Ascii.eqb c "[" then d + 1
     else if Ascii.eqb c "]" then d - 1 else d).
Proof.
  intros Hd Hc. cbn [skip_scan].
  destruct (d =? 0) eqn:E; [apply Z.eqb_eq in E; contradiction|].
  rewrite Hc. reflexivity.
Qed.

Lemma skip_scan_stop fuel s i : skip_scan fuel s i 0 = Found i.
Proof. destruct fuel; reflexivity. Qed.

(** Where a scan can stop: on a []] inside the program. *)
Lemma skip_scan_found fuel s : forall i d j,
  0 < d -> skip_scan fuel s i d = Found j ->
  i < j < size s /\ string_at s j = Some "]"%char.
Proof.
  induction fuel as [|fuel IH]; intros i d j Hd; cbn [skip_scan];
    destruct (d =? 0) eqn:E; try (apply Z.eqb_eq in E; lia);
    [discriminate|].
  destruct (string_at s (i + 1)) as [c|] eqn:Hc; [|discriminate].
  destruct (Ascii.eqb c "[") eqn:Eo.
  - intros H. apply IH in H; [|lia]. split; [lia | apply H].
  - destruct (Ascii.eqb c "]") eqn:Ec.
    + apply Ascii.eqb_eq in Ec. subst c.
      destruct (Z.eq_dec (d - 1) 0) as [Hz|Hz].
      * rewrite Hz, skip_scan_stop. intros [= <-].
        assert (Hnz : "]"%char <> Ascii.zero) by discriminate.
        pose proof (string_at_inside _ _ _ Hc Hnz). split; [lia | exact Hc].
      * intros H. apply IH in H; [|lia]. split; [lia | apply H].
    + intros H. apply IH in H; [|lia]. split; [lia | apply H].
Qed.

(** Where a scan can leave the string: one beyond the terminator. *)
Lemma skip_scan_past_end fuel s : forall i d j,
  0 <= i <= size s -> skip_scan fuel s i d = PastEnd j -> j = size s + 1.
Proof.
  induction fuel as [|fuel IH]; intros i d j Hi; cbn [skip_scan];
    destruct (d =? 0); try discriminate.
  destruct (string_at s (i + 1)) as [c|] eqn:Hc.
  - apply IH. apply string_at_range in Hc. lia.
  - intros [= <-]. apply string_at_none in Hc. lia.
Qed.

(** A [[] taken up on a zero cell either resumes just behind a []] that lies
    further on in the program, or reads one character beyond the terminator
    of the string; there is no third way, and the index never ends on
    anything but the character after a []]. *)
Theorem skip_ends_behind_close_bracket instructions cell_limit m :
  string_at instructions (index m) = Some "["%char ->
  span m <= cell_limit ->
  cell (stack m) (pointer m) = 0 ->
  let m1 := set_stack (touch (stack m) (pointer m))
              (set_operations (operations m + 1) m) in
  (exists j,
     index m < j < size instructions /\
     string_at instructions j = Some "]"%char /\
     iteration instructions cell_limit m = Next (set_index (j + 1) m1)) \/
  iteration instructions cell_limit m =
    Halt (Undefined (ReadPastEnd (size instructions + 1))) m1.
Proof.
  intros Hc Hlim Hz m1. unfold iteration.
  rewrite (body_open_zero _ _ _ Hc Hlim Hz). cbv zeta. fold m1.
  pose proof (string_at_range _ _ _ Hc) as Hr.
  destruct (skip_scan (scan_fuel instructions) instructions (index m) 1)
    as [j|j|] eqn:Hs.
  - left. exists j.
    destruct (skip_scan_found _ _ _ _ _ Z.lt_0_1 Hs) as [Hj Hat].
    repeat split; try assumption; lia.
  - right. rewrite (skip_scan_past_end _ _ _ _ _ Hr Hs). reflexivity.
  - exfalso. exact (skip_scan_fuel _ _ _ (proj1 Hr) Hs).
Qed.

Lemma append_assoc (s1 s2 s3 : string) :
  ((s1 ++ s2) ++ s3)%string = (s1 ++ (s2 ++ s3))%string.
Proof.
  induction s1 as [|a s1 IH]; [reflexivity|].
  exact (f_equal (String a) IH).
Qed.

Lemma size_append s1 s2 : size (s1 ++ s2) = size s1 + size s2.
Proof. unfold size. rewrite length_append. lia. Qed.

(** A scan passes over balanced text and comes out at the depth it went in
    with. *)
Lemma scan_through b :
  balanced b ->
  forall s pre rest d fuel,
    s = (pre ++ b ++ rest)%string -> 0 < d ->
    skip_scan (String.length b + fuel) s (size pre - 1) d =
    skip_scan fuel s (size pre + size b - 1) d.
Proof.
  induction 1 as [|c b Ho Hc Hb IH|b1 b2 H1 IH1 H2 IH2];
    intros s pre rest d fuel Hs Hd.
  - cbn [String.length Nat.add]. f_equal. unfold size. cbn. lia.
  - cbn [String.length Nat.add].
    assert (Hat : string_at s (size pre - 1 + 1) = Some c).
    { rewrite Hs. replace (size pre - 1 + 1) with (size pre) by lia.
      exact (string_at_append pre c (b ++ rest)). }
    rewrite (skip_scan_step _ _ _ _ _ (Z.neq_sym _ _ (Z.lt_neq _ _ Hd)) Hat).
    apply Ascii.eqb_neq in Ho, Hc. rewrite Ho, Hc.
    replace (size pre - 1 + 1) with (size (pre ++ String c "") - 1)
      by (rewrite size_snoc; lia).
    rewrite (IH s (pre ++ String c "")%string rest d fuel);
      [| rewrite Hs, append_snoc; reflexivity | exact Hd].
    f_equal. rewrite size_snoc, size_cons. lia.
  - set (pre1 := (pre ++ String "[" "")%string).
    set (pre2 := ((pre1 ++ b1) ++ String "]" "")%string).
    assert (Hs1 : s = (pre1 ++ b1 ++ String "]" (b2 ++ rest))%string).
    { rewrite Hs. unfold pre1. rewrite append_snoc.
      change (String "[" (b1 ++ String "]" b2) ++ rest)%string
        with (String "[" ((b1 ++ String "]" b2) ++ rest))%string.
      rewrite append_assoc. reflexivity. }
    assert (Hs2 : s = (pre2 ++ b2 ++ rest)%string).
    { rewrite Hs1. unfold pre2. rewrite append_snoc, append_assoc.
      reflexivity. }
    replace (String.length (String "[" (b1 ++ String "]" b2)) + fuel)%nat
      with (S (String.length b1 + S (String.length b2 + fuel)))
      by (cbn [String.length]; rewrite length_append; cbn [String.length];
          lia).
    assert (Hat1 : string_at s (size pre - 1 + 1) = Some "["%char).
    { rewrite Hs. replace (size pre - 1 + 1) with (size pre) by lia.
      apply string_at_append. }
    rewrite (skip_scan_step _ _ _ _ _ (Z.neq_sym _ _ (Z.lt_neq _ _ Hd)) Hat1).
    cbn [Ascii.eqb Bool.eqb]. cbv iota.
    replace (size pre - 1 + 1) with (size pre1 - 1)
      by (unfold pre1; rewrite size_snoc; lia).
    rewrite (IH1 s pre1 (String "]" (b2 ++ rest)) (d + 1)
               (S (String.length b2 + fuel)) Hs1) by lia.
    assert (Hat2 : string_at s (size pre1 + size b1 - 1 + 1)
                   = Some "]"%char).
    { rewrite Hs1, <- append_assoc.
      replace (size pre1 + size b1 - 1 + 1) with (size (pre1 ++ b1))
        by (rewrite size_append; lia).
      apply string_at_append. }
    assert (Hd1 : d + 1 <> 0) by lia.
    rewrite (skip_scan_step _ _ _ _ _ Hd1 Hat2).
    cbn [Ascii.eqb Bool.eqb]. cbv iota.
    replace (d + 1 - 1) with d by lia.
    replace (size pre1 + size b1 - 1 + 1) with (size pre2 - 1)
      by (unfold pre2; rewrite size_snoc, size_append; lia).
    rewrite (IH2 s pre2 rest d fuel Hs2 Hd).
    f_equal. unfold pre2, pre1.
    repeat (rewrite size_append || rewrite size_cons).
    unfold size. cbn [String.length]. lia.
Qed.

Lemma skip_scan_matching pre b rest :
  balanced b ->
  let s := (pre ++ String "[" (b ++ String "]" rest))%string in
  skip_scan (scan_fuel s) s (size pre) 1 = Found (size pre + size b + 1).
Proof.
  intros Hb s.
  set (pre1 := (pre ++ String "[" "")%string).
  assert (Hs : s = (pre1 ++ b ++ String "]" rest)%string).
  { unfold s, pre1. rewrite append_snoc. reflexivity. }
  replace (scan_fuel s)
    with (String.length b
          + S (S (S (S (String.length pre + String.length rest)))))%nat
    by (unfold scan_fuel, s; rewrite length_append; cbn [String.length];
        rewrite length_append; cbn [String.length]; lia).
  replace (size pre) with (size pre1 - 1)
    by (unfold pre1; rewrite size_snoc; lia).
  rewrite (scan_through b Hb s pre1 (String "]" rest) 1 _ Hs Z.lt_0_1).
  assert (Hat : string_at s (size pre1 + size b - 1 + 1) = Some "]"%char).
  { rewrite Hs, <- append_assoc.
    replace (size pre1 + size b - 1 + 1) with (size (pre1 ++ b))
      by (rewrite size_append; lia).
    apply string_at_append. }
  assert (H1 : 1 <> 0) by discriminate.
  rewrite (skip_scan_step _ _ _ _ _ H1 Hat).
  cbn [Ascii.eqb Bool.eqb]. cbv iota. change (1 - 1) with 0.
  rewrite skip_scan_stop. f_equal. unfold pre1. rewrite size_snoc. lia.
Qed.

Lemma skip_over_balanced pre b rest cell_limit m :
  balanced b ->
  index m = size pre ->
  span m <= cell_limit ->
  cell (stack m) (pointer m) = 0 ->
  iteration (pre ++ String "[" (b ++ String "]" rest)) cell_limit m =
  Next (set_index (size pre + size b + 2)
          (set_stack (touch (stack m) (pointer m))
             (set_operations (operations m + 1) m))).
Proof.
  intros Hb Hi Hlim Hz.
  pose proof (string_at_append pre "[" (b ++ String "]" rest)) as Hat.
  rewrite <- Hi in Hat. unfold iteration.
  rewrite (body_open_zero _ _ _ Hat Hlim Hz). cbv zeta.
  pose proof (skip_scan_matching pre b rest Hb) as Hs. cbv zeta in Hs.
  rewrite <- Hi in Hs at 1.
  change (index (set_stack (touch (stack m) (pointer m))
                   (set_operations (operations m + 1) m)))
    with (index m).
  rewrite Hs. apply f_equal. unfold set_index.
  cbn [index stack pointer loop_start_indices lowest_cell greatest_cell
       operations left_shifts right_shifts cin cout cerr].
  f_equal. lia.
Qed.

(** Skipping a loop: when the brackets of the loop body are balanced, a [[]
    taken up on a zero cell resumes at the instruction behind its own
    matching []], however deeply the body nests, with one operation counted
    and the loop-start buffer as it was. *)
Theorem skip_lands_behind_matching_bracket pre b rest cell_limit m :
  balanced b ->
  index m = size pre ->
  span m <= cell_limit ->
  cell (stack m) (pointer m) = 0 ->
  iteration (pre ++ String "[" (b ++ String "]" rest)) cell_limit m =
  Next (set_index (size pre + size b + 2)
          (set_stack (touch (stack m) (pointer m))
             (set_operations (operations m + 1) m))).
Proof. apply skip_over_balanced. Qed.

(** ** A loop that runs: [[-]] *)





Section ClearLoop.

Variables (pre rest : string) (cell_limit : Z).

Let s : string := (pre ++ String "[" (String "-" (String "]" rest)))%string.
Let i : Z := size pre.




End ClearLoop.



(** ** The command line *)

Lemma stoi_range s n : stoi s = Some n -> INT_MIN <= n <= INT_MAX.
Proof.
  unfold stoi. cbv zeta.
  destruct (match skip_spaces s with
            | EmptyString => (false, skip_spaces s)
            | String c rest =>
                if Ascii.eqb c "-" then (true, rest)
                else if Ascii.eqb c "+" then (false, rest)
                else (false, skip_spaces s)
            end) as [negative t].
  destruct (starts_with_digit t); [|discriminate].
  match goal with
  | |- context [if ?b then Some ?v else None] =>
      destruct b eqn:Hr; [|discriminate]; intros [= <-]
  end.
  apply andb_true_iff in Hr as [H1 H2].
  apply Z.leb_le in H1, H2. split; assumption.
Qed.

Lemma parse_loop_limit_aux files n : forall arguments o o',
  (List.length arguments <= n)%nat ->
  INT_MIN <= opt_cell_limit o <= INT_MAX ->
  parse_loop files arguments o = inr o' ->
  INT_MIN <= opt_cell_limit o' <= INT_MAX.
Proof.
  induction n as [|n IH]; intros arguments o o' Hn Ho;
    destruct arguments as [|argument rest]; cbn [List.length] in Hn;
    try lia; cbn [parse_loop].
  - intros [= <-]. exact Ho.
  - intros [= <-]. exact Ho.
  - destruct (String.eqb argument "-f").
    { destruct rest as [|file_name rest']; [discriminate|].
      destruct (negb (is_empty (opt_instructions o))); [discriminate|].
      destruct (files file_name); [|discriminate].
      apply IH; [cbn [List.length] in *; lia | exact Ho]. }
    destruct (String.eqb argument "-l").
    { destruct rest as [|value rest']; [discriminate|].
      destruct (stoi value) as [limit|] eqn:Hs; [|discriminate].
      apply IH; [cbn [List.length] in *; lia | exact (stoi_range _ _ Hs)]. }
    destruct (String.eqb argument "-v").
    { apply IH; [cbn [List.length] in *; lia | exact Ho]. }
    destruct (negb (is_empty (opt_instructions o))); [discriminate|].
    apply IH; [cbn [List.length] in *; lia | exact Ho].
Qed.

Lemma parse_loop_limit files arguments o o' :
  INT_MIN <= opt_cell_limit o <= INT_MAX ->
  parse_loop files arguments o = inr o' ->
  INT_MIN <= opt_cell_limit o' <= INT_MAX.
Proof. apply (parse_loop_limit_aux files (List.length arguments)). lia. Qed.

(** Whatever the command line, a cell limit that parsing accepts is a value
    of [int]: the default, or a number [stoi] converted without overflow. *)
Theorem parsed_limit_is_an_int files arguments o :
  parse_arguments files arguments = inr o ->
  - 2 ^ 31 <= opt_cell_limit o <= 2 ^ 31 - 1.
Proof.
  unfold parse_arguments. destruct arguments as [|a rest]; [discriminate|].
  apply parse_loop_limit.
  unfold INT_MIN, INT_MAX, default_cell_limit. cbn. lia.
Qed.

Lemma parse_loop_source_aux files n : forall arguments o o',
  (List.length arguments <= n)%nat ->
  parse_loop files arguments o = inr o' ->
  opt_instructions o' = opt_instructions o \/
  is_empty (opt_instructions o) = true /\
  (In (opt_instructions o') arguments \/
   exists file_name,
     In file_name arguments /\ files file_name = Some (opt_instructions o')).
Proof.
  induction n as [|n IH]; intros arguments o o' Hn;
    destruct arguments as [|argument rest]; cbn [List.length] in Hn;
    try lia; cbn [parse_loop].
  - intros [= <-]. left. reflexivity.
  - intros [= <-]. left. reflexivity.
  - destruct (String.eqb argument "-f").
    { destruct rest as [|file_name rest']; [discriminate|].
      destruct (is_empty (opt_instructions o)) eqn:He; cbn [negb];
        [|discriminate].
      destruct (files file_name) as [content|] eqn:Hf; [|discriminate].
      intros H. apply IH in H; [|cbn [List.length] in *; lia].
      cbn [opt_instructions] in H. right. split; [reflexivity|].
      destruct H as [H|[_ [H|(name & Hin & Hname)]]].
      - right. exists file_name. rewrite H. split; [cbn; auto | exact Hf].
      - left. cbn. auto.
      - right. exists name. split; [cbn; auto | exact Hname]. }
    destruct (String.eqb argument "-l").
    { destruct rest as [|value rest']; [discriminate|].
      destruct (stoi value) as [limit|]; [|discriminate].
      intros H. apply IH in H; [|cbn [List.length] in *; lia].
      cbn [opt_instructions] in H.
      destruct H as [H|[He [H|(name & Hin & Hname)]]].
      - left. exact H.
      - right. split; [exact He|]. left. cbn. auto.
      - right. split; [exact He|]. right. exists name.
        split; [cbn; auto | exact Hname]. }
    destruct (String.eqb argument "-v").
    { intros H. apply IH in H; [|lia]. cbn [opt_instructions] in H.
      destruct H as [H|[He [H|(name & Hin & Hname)]]].
      - left. exact H.
      - right. split; [exact He|]. left. cbn. auto.
      - right. split; [exact He|]. right. exists name.
        split; [cbn; auto | exact Hname]. }
    destruct (is_empty (opt_instructions o)) eqn:He; cbn [negb];
      [|discriminate].
    intros H. apply IH in H; [|lia]. cbn [opt_instructions] in H.
    right. split; [reflexivity|].
    assert (Hcat : (opt_instructions o ++ argument)%string = argument).
    { destruct (opt_instructions o); [reflexivity | discriminate]. }
    rewrite Hcat in H.
    destruct H as [H|[He' [H|(name & Hin & Hname)]]].
    + left. rewrite H. cbn. auto.
    + left. cbn. auto.
    + right. exists name. split; [cbn; auto | exact Hname].
Qed.

(** The instructions are never pieced together: when parsing succeeds they
    are empty, or one argument as it stands, or the content of one of the
    files named. *)
Theorem instructions_have_one_source files arguments o :
  parse_arguments files arguments = inr o ->
  opt_instructions o = EmptyString \/
  In (opt_instructions o) arguments \/
  exists file_name,
    In file_name arguments /\ files file_name = Some (opt_instructions o).
Proof.
  unfold parse_arguments. destruct arguments as [|a rest]; [discriminate|].
  intros H.
  apply (parse_loop_source_aux files (List.length (a :: rest))) in H;
    [|lia].
  cbn [opt_instructions] in H.
  destruct H as [H|[_ H]]; [left; exact H | right; exact H].
Qed.

(** ** Instances *)

Lemma cells_stay_chars_witness :
  reachable "-" 256 "" (Machine (<[0 := -1]> ∅) 0 [] 0 0 1 0 0 1 "" "" "") /\
  -128 <= cell (<[0 := -1]> ∅) 0 <= 127.
Proof.
  assert (H1 : reachable "-" 256 ""
                 (Machine (<[0 := -1]> ∅) 0 [] 0 0 1 0 0 1 "" "" ""))
    by (exists 1%nat; reflexivity).
  split; [exact H1|].
  exact (cells_stay_chars "-" 256 "" _ 0 H1).
Defined.

Lemma span_never_decreases_witness :
  reachable ">><<" 256 "" (Machine ∅ 2 [] 0 0 2 0 2 2 "" "" "") /\
  iterate 1 ">><<" 256 (Machine ∅ 2 [] 0 0 2 0 2 2 "" "" "") =
    Some (Machine ∅ 1 [] 0 1 3 1 2 3 "" "" "") /\
  span (Machine ∅ 2 [] 0 0 2 0 2 2 "" "" "") <=
    span (Machine ∅ 1 [] 0 1 3 1 2 3 "" "" "").
Proof.
  assert (H1 : reachable ">><<" 256 "" (Machine ∅ 2 [] 0 0 2 0 2 2 "" "" ""))
    by (exists 2%nat; reflexivity).
  assert (H2 : iterate 1 ">><<" 256 (Machine ∅ 2 [] 0 0 2 0 2 2 "" "" "") =
               Some (Machine ∅ 1 [] 0 1 3 1 2 3 "" "" ""))
    by reflexivity.
  split; [exact H1|]. split; [exact H2|].
  exact (span_never_decreases ">><<" 256 "" _ 1 _ H1 H2).
Defined.

Lemma loop_starts_are_open_brackets_witness :
  reachable "+[-]" 256 ""
    (Machine (<[0 := 1]> ∅) 0 [1] 0 0 2 0 0 2 "" "" "") /\
  In 1 [1] /\
  string_at "+[-]" 1 = Some "["%char /\ 0 <= 1 < size "+[-]".
Proof.
  assert (H1 : reachable "+[-]" 256 ""
                 (Machine (<[0 := 1]> ∅) 0 [1] 0 0 2 0 0 2 "" "" ""))
    by (exists 2%nat; reflexivity).
  assert (H2 : In 1 [1]) by (simpl; auto).
  split; [exact H1|]. split; [exact H2|].
  exact (loop_starts_are_open_brackets "+[-]" 256 "" _ 1 H1 H2).
Defined.

Lemma dot_writes_one_printable_witness :
  string_at "." (index (initial "")) = Some "."%char /\
  span (initial "") <= 256 /\
  exists ch m',
    iteration "." 256 (initial "") = Next m' /\
    cout m' = String ch EmptyString /\ ch = "?"%char.
Proof.
  assert (H1 : string_at "." (index (initial "")) = Some "."%char)
    by reflexivity.
  assert (H2 : span (initial "") <= 256) by (vm_compute; discriminate).
  split; [exact H1|]. split; [exact H2|].
  destruct (dot_writes_one_printable "." 256 (initial "") H1 H2)
    as (ch & m' & Hit & Hout & _ & Hch & _).
  exists ch, m'. split; [exact Hit|]. split; [exact Hout | exact Hch].
Defined.


Lemma negative_limit_refuses_all_witness :
  -1 < 0 /\
  execute 1 "+" (-1) "" =
    (Failed ResourceLimitExceeded,
     Machine ∅ 0 [] 0 0 1 0 0 0 "" "" "Stack size limit reached").
Proof.
  assert (H1 : -1 < 0) by lia.
  split; [exact H1|].
  exact (negative_limit_refuses_all "+" "" (-1) "" 0 H1).
Defined.

Lemma rightward_run_never_trips_witness :
  all_chars no_left ">+>>." = true /\
  0 <= 0 /\
  exists m',
    execute 5 ">+>>." 0 "" = (Completed, m') /\
    pointer m' = 3 /\ span m' = 0.
Proof.
  assert (H1 : all_chars no_left ">+>>." = true) by reflexivity.
  assert (H2 : 0 <= 0) by lia.
  split; [exact H1|]. split; [exact H2|].
  destruct (rightward_run_never_trips ">+>>." 0 "" H1 H2)
    as (m' & Hrun & Hp & _ & _ & Hs & _).
  exists m'. split; [exact Hrun|]. split; [exact Hp | exact Hs].
Defined.

Lemma comma_dot_echoes_witness :
  all_chars (fun c => negb (Ascii.eqb c newline)) "A" = true /\
  0 <= 256 /\
  exists m',
    execute 2 ",." 256 ("A" ++ String newline "") = (Completed, m') /\
    cout m' = (prompt ++ "A")%string.
Proof.
  assert (H1 : all_chars (fun c => negb (Ascii.eqb c newline)) "A" = true)
    by reflexivity.
  assert (H2 : 0 <= 256) by lia.
  split; [exact H1|]. split; [exact H2|].
  destruct (comma_dot_echoes "A" "" "" 256 0 H1 H2)
    as (m' & Hrun & Hout & _).
  exists m'. split; [exact Hrun | exact Hout].
Defined.

Lemma skip_ends_behind_close_bracket_witness :
  string_at "[+]" (index (initial "")) = Some "["%char /\
  span (initial "") <= 256 /\
  cell (stack (initial "")) (pointer (initial "")) = 0 /\
  ((exists j,
      index (initial "") < j < size "[+]" /\
      string_at "[+]" j = Some "]"%char /\
      iteration "[+]" 256 (initial "") =
        Next (set_index (j + 1)
                (set_stack (touch ∅ 0)
                   (set_operations (0 + 1) (initial ""))))) \/
   iteration "[+]" 256 (initial "") =
     Halt (Undefined (ReadPastEnd (size "[+]" + 1)))
       (set_stack (touch ∅ 0) (set_operations (0 + 1) (initial "")))).
Proof.
  assert (H1 : string_at "[+]" (index (initial "")) = Some "["%char)
    by reflexivity.
  assert (H2 : span (initial "") <= 256) by (vm_compute; discriminate).
  assert (H3 : cell (stack (initial "")) (pointer (initial "")) = 0)
    by reflexivity.
  split; [exact H1|]. split; [exact H2|]. split; [exact H3|].
  exact (skip_ends_behind_close_bracket "[+]" 256 (initial "") H1 H2 H3).
Defined.

Lemma skip_lands_behind_matching_bracket_witness :
  balanced "+[-]" /\
  index (initial "") = size "" /\
  span (initial "") <= 256 /\
  cell (stack (initial "")) (pointer (initial "")) = 0 /\
  iteration "[+[-]]." 256 (initial "") =
    Next (Machine (<[0 := 0]> ∅) 0 [] 0 0 1 0 0 6 "" "" "").
Proof.
  assert (H1 : balanced "+[-]").
  { apply balanced_char; [discriminate | discriminate |].
    apply (balanced_loop "-" "").
    - apply balanced_char; [discriminate | discriminate | constructor].
    - constructor. }
  assert (H2 : index (initial "") = size "") by reflexivity.
  assert (H3 : span (initial "") <= 256) by (vm_compute; discriminate).
  assert (H4 : cell (stack (initial "")) (pointer (initial "")) = 0)
    by reflexivity.
  split; [exact H1|]. split; [exact H2|]. split; [exact H3|].
  split; [exact H4|].
  exact (skip_lands_behind_matching_bracket "" "+[-]" "." 256 (initial "")
           H1 H2 H3 H4).
Defined.


Lemma parsed_limit_is_an_int_witness :
  parse_arguments (fun _ => None) ["-l"; "12 cells"; "-v"; "+."]%string =
    inr (Options true 12 "+.") /\
  - 2 ^ 31 <= 12 <= 2 ^ 31 - 1.
Proof.
  assert (H1 : parse_arguments (fun _ => None)
                 ["-l"; "12 cells"; "-v"; "+."]%string =
               inr (Options true 12 "+.")) by reflexivity.
  split; [exact H1|].
  exact (parsed_limit_is_an_int _ _ _ H1).
Defined.

Lemma instructions_have_one_source_witness :
  parse_arguments
    (fun name => if String.eqb name "hello.bf" then Some "+[-]."%string
                 else None)
    ["-v"; "-f"; "hello.bf"]%string = inr (Options true 256 "+[-].") /\
  ("+[-]."%string = EmptyString \/
   In "+[-]."%string ["-v"; "-f"; "hello.bf"]%string \/
   exists file_name,
     In file_name ["-v"; "-f"; "hello.bf"]%string /\
     (if String.eqb file_name "hello.bf" then Some "+[-]."%string else None)
     = Some "+[-]."%string).
Proof.
  assert (H1 : parse_arguments
                 (fun name => if String.eqb name "hello.bf"
                              then Some "+[-]."%string else None)
                 ["-v"; "-f"; "hello.bf"]%string =
               inr (Options true 256 "+[-].")) by reflexivity.
  split; [exact H1|].
  exact (instructions_have_one_source _ _ _ H1).
Defined.

(** ** The [int] variables stay in range *)

Lemma last_in (l : list Z) d : l <> [] -> In (List.last l d) l.
Proof.
  induction l as [|a l IH]; [contradiction|]. intros _.
  destruct l as [|b l]; [left; reflexivity|].
  right. apply IH. discriminate.
Qed.

Lemma body_keeps_loop_starts instructions cell_limit m m1 :
  (forall j, In j (loop_start_indices m) ->
             string_at instructions j = Some "["%char) ->
  body instructions cell_limit m = Next m1 ->
  forall j, In j (loop_start_indices m1) ->
            string_at instructions j = Some "["%char.
Proof.
  intros HP Hb.
  pose proof (get_input_frame (set_operations (operations m + 1) m))
    as (_ & _ & Hl & _).
  body_leaves Hb;
    cbn [loop_start_indices set_stack set_operations set_pointer
         set_index set_cout set_loop_start_indices set_lowest_cell
         set_greatest_cell set_left_shifts set_right_shifts fst index]
      in *;
    try exact HP.
  - rewrite Hl. exact HP.
  - intros j Hj. unfold vec_push_back in Hj.
    apply in_app_or in Hj as [Hj|[<-|[]]]; [exact (HP _ Hj)|].
    match goal with
    | E : Ascii.eqb _ "[" = true |- _ =>
        apply Ascii.eqb_eq in E; subst; assumption
    end.
  - intros j Hj. apply HP.
    match goal with
    | E : vec_pop_back ?l = Some _ |- _ =>
        unfold vec_pop_back in E; destruct l as [|z l0];
        [discriminate E | injection E as <-];
        exact (in_removelast (z :: l0) j Hj)
    end.
Qed.

Lemma body_index_inside instructions cell_limit m m1 :
  (forall j, In j (loop_start_indices m) ->
             string_at instructions j = Some "["%char) ->
  loop_guard instructions m = true ->
  body instructions cell_limit m = Next m1 ->
  0 <= index m1 < size instructions.
Proof.
  intros HP Hg Hb.
  assert (Hi : 0 <= index m < size instructions).
  { unfold loop_guard in Hg. apply andb_true_iff in Hg as [H0 H1].
    apply Z.leb_le in H0. apply Z.ltb_lt in H1. lia. }
  pose proof (get_input_frame (set_operations (operations m + 1) m))
    as (_ & _ & _ & _ & _ & _ & Hix).
  body_leaves Hb;
    cbn [loop_start_indices set_stack set_operations set_pointer
         set_index set_cout set_loop_start_indices set_lowest_cell
         set_greatest_cell set_left_shifts set_right_shifts fst index]
      in *;
    try exact Hi.
  - rewrite Hix. exact Hi.
  - match goal with
    | E : skip_scan _ _ _ _ = Found _ |- _ =>
        destruct (skip_scan_found _ _ _ _ _ Z.lt_0_1 E) as [Hj _]; lia
    end.
  - assert (Hne : loop_start_indices m <> []).
    { intros Hempty.
      match goal with
      | H : negb (vec_empty _) = true |- _ =>
          rewrite Hempty in H; discriminate H
      end. }
    pose proof (HP _ (last_in _ 0 Hne)) as Hat.
    apply string_at_inside in Hat; [exact Hat | discriminate].
Qed.

(** In a run of at most [INT_MAX] iterations over a program of at most
    [INT_MAX] characters no [int] variable of [main] leaves the range of
    [int]: [operations] is the number of iterations, the cursor is the right
    shifts less the left shifts, [lowest_cell] lies between minus the left
    shifts and 0, [greatest_cell] between 0 and the right shifts, the sum
    the check compares is at most the number of shifts, itself at most the
    operations, and the instruction index and the recorded loop starts lie
    within the program. *)
Theorem shift_counters_bound instructions cell_limit input n m :
  iterate n instructions cell_limit (initial input) = Some m ->
  Z.of_nat n <= INT_MAX ->
  size instructions <= INT_MAX ->
  operations m = Z.of_nat n /\
  pointer m = right_shifts m - left_shifts m /\
  0 <= left_shifts m /\ 0 <= right_shifts m /\
  - left_shifts m <= lowest_cell m <= 0 /\
  0 <= greatest_cell m <= right_shifts m /\
  span m <= left_shifts m + right_shifts m <= operations m /\
  operations m <= INT_MAX /\
  0 <= index m <= size instructions /\
  index m <= INT_MAX /\
  (forall j, In j (loop_start_indices m) -> 0 <= j < size instructions).
Proof.
  intros Hn Hint Hsize.
  pose proof (iterate_operations _ _ _ _ _ Hn) as Hops. cbn in Hops.
  assert (Hs : shifts_bound m).
  { refine (iterate_invariant shifts_bound _ _ _ n _ _ _ Hn).
    - intros m0 m' HP _ Hit.
      destruct (iteration_body _ _ _ _ Hit) as (m1 & Hb & ->).
      exact (proj1 (body_keeps_shifts _ _ _ _ HP Hb)).
    - unfold shifts_bound. cbn. lia. }
  assert (Hx : (forall j, In j (loop_start_indices m) ->
                          string_at instructions j = Some "["%char) /\
               0 <= index m <= size instructions).
  { refine (iterate_invariant
              (fun x => (forall j, In j (loop_start_indices x) ->
                                   string_at instructions j = Some "["%char)
                        /\ 0 <= index x <= size instructions)
              _ _ _ n _ _ _ Hn).
    - intros m0 m' [HP _] Hg Hit.
      destruct (iteration_body _ _ _ _ Hit) as (m1 & Hb & ->).
      split.
      + exact (body_keeps_loop_starts _ _ _ _ HP Hb).
      + pose proof (body_index_inside _ _ _ _ HP Hg Hb). cbn. lia.
    - split; [intros j []|]. cbn. unfold size. lia. }
  destruct Hx as [Hl Hi]. unfold shifts_bound, span in *.
  repeat (split; [lia|]).
  intros j Hj. apply (string_at_inside _ _ _ (Hl _ Hj)). discriminate.
Qed.

Lemma shift_counters_bound_witness :
  iterate 3 ">><" 256 (initial "") =
    Some (Machine ∅ 1 [] 0 1 3 1 2 3 "" "" "") /\
  Z.of_nat 3 <= INT_MAX /\
  size ">><" <= INT_MAX /\
  operations (Machine ∅ 1 [] 0 1 3 1 2 3 "" "" "") = Z.of_nat 3 /\
  span (Machine ∅ 1 [] 0 1 3 1 2 3 "" "" "") <= 1 + 2 <= 3.
Proof.
  assert (H1 : iterate 3 ">><" 256 (initial "") =
               Some (Machine ∅ 1 [] 0 1 3 1 2 3 "" "" "")) by reflexivity.
  assert (H2 : Z.of_nat 3 <= INT_MAX) by (vm_compute; discriminate).
  assert (H3 : size ">><" <= INT_MAX) by (vm_compute; discriminate).
  split; [exact H1|]. split; [exact H2|]. split; [exact H3|].
  destruct (shift_counters_bound ">><" 256 "" 3 _ H1 H2 H3)
    as (Ho & _ & _ & _ & _ & _ & Hs & _).
  split; [exact Ho | exact Hs].
Defined.
